(** * Agricultural analytics engine: data fusion, risk scoring and
      yield-pattern analysis

    A shallow embedding of [data_manager.py] (class
    [AgriculturalDataManager]) and of the fusion and series helpers of
    [analyzer.py] (class [AgriculturalAnalyzer]).

    Numbers.  A float64 is idealised as a real number ([R]); the missing
    value (NaN, NaT, None) is a cell of its own.  IEEE rounding and the
    infinities are outside the model.

    Tables.  A pandas [DataFrame] is a header (the ordered column names)
    and a list of rows, each row a finite map from column name to cell.
    The row label of a freshly loaded or merged table is its position
    (pandas' [RangeIndex]).

    Exceptions.  A Python call that may raise returns a [result]. *)

From Stdlib Require Import Reals Lra ZArith String List Sorted.
From stdpp Require Import gmap strings list fin_maps.

(** ** Exceptions *)

Inductive exn :=
  | KeyError (key : string)
  | TypeError
  | AttributeError
  | ValueError (msg : string).

Inductive result (A : Type) :=
  | Ok (a : A)
  | Raise (e : exn).
Arguments Ok {A} a.
Arguments Raise {A} e.

#[global] Instance result_ret : MRet result := @Ok.
#[global] Instance result_bind : MBind result := λ A B f m,
  match m with Ok a => f a | Raise e => Raise e end.
#[global] Instance result_fmap : FMap result := λ A B f m,
  match m with Ok a => Ok (f a) | Raise e => Raise e end.

(** ** The tabular layer (pandas) *)

Module Pandas.

(** One cell of a table. [NaN] is every kind of missing value. *)
Inductive cell :=
  | Str (s : string)
  | Num (x : R)
  | Date (d : Z)          (* a timestamp, in days since 1970-01-01 *)
  | NaN.

#[global] Instance cell_inhabited : Inhabited cell := populate NaN.

#[global] Instance R_eq_dec : EqDecision R := Req_dec_T.
#[global] Instance R_inhabited : Inhabited R := populate 0%R.
#[global] Instance cell_eq_dec : EqDecision cell.
Proof. solve_decision. Defined.

#[global] Instance Rlt_decision (x y : R) : Decision (x < y)%R := Rlt_dec x y.

Definition isnull (c : cell) : bool :=
  match c with NaN => true | _ => false end.

Definition notnull (c : cell) : bool := negb (isnull c).

Record DataFrame := {
  columns : list string;
  rows : list (gmap string cell);
}.

(** The cell of a row under a column; a row that lacks the column reads
    as missing. *)
Definition at_ (r : gmap string cell) (c : string) : cell :=
  default NaN (r !! c).

Definition require (c : string) (df : DataFrame) : result unit :=
  if decide (c ∈ columns df) then Ok () else Raise (KeyError c).

(** [df[c]] *)
Definition getitem (c : string) (df : DataFrame) : result (list cell) :=
  _ ← require c df; Ok ((λ r, at_ r c) <$> rows df).

(** [df[c] = s], with [s] a series over the same row labels: an existing
    column is overwritten in place, a new one is appended to the header;
    a label the series lacks receives the missing value. *)
Definition setitem (c : string) (s : list cell) (df : DataFrame) : DataFrame :=
  {| columns := if decide (c ∈ columns df) then columns df
                else columns df ++ [c];
     rows := imap (λ i r, <[c := default NaN (s !! i)]> r) (rows df) |}.

(** [df[[c1, ..., cn]]]: a new table. *)
Definition select (cs : list string) (df : DataFrame) : result DataFrame :=
  _ ← mapM (λ c, require c df) cs;
  Ok {| columns := cs;
        rows := (λ r, list_to_map ((λ c, (c, at_ r c)) <$> cs)) <$> rows df |}.

(** [df[df[c] == v]] for a scalar [v]: a missing cell equals nothing. *)
Definition where_eq (c : string) (v : cell) (df : DataFrame) : result DataFrame :=
  _ ← require c df;
  Ok {| columns := columns df;
        rows := filter (λ r, notnull v ∧ at_ r c = v) (rows df) |}.

(** [df.dropna(subset=[c])] *)
Definition dropna (c : string) (df : DataFrame) : result DataFrame :=
  _ ← require c df;
  Ok {| columns := columns df;
        rows := filter (λ r, notnull (at_ r c)) (rows df) |}.

(** [s.fillna(t)] for two series over the same labels. *)
Definition fillna (s t : list cell) : list cell :=
  imap (λ i a, if isnull a then default NaN (t !! i) else a) s.

(** *** Arithmetic on series

    Arithmetic is defined on floats; a text or timestamp operand raises
    [TypeError], a missing operand gives a missing result. *)

Definition lift1 (f : R → R) (a : cell) : result cell :=
  match a with
  | Num x => Ok (Num (f x))
  | NaN => Ok NaN
  | _ => Raise TypeError
  end.

Definition lift2 (f : R → R → R) (a b : cell) : result cell :=
  match a, b with
  | Num x, Num y => Ok (Num (f x y))
  | Num _, NaN | NaN, Num _ | NaN, NaN => Ok NaN
  | _, _ => Raise TypeError
  end.

(** [s op k] and [k op s] for a scalar [k] *)
Definition smap (f : R → R) (s : list cell) : result (list cell) :=
  mapM (lift1 f) s.

(** [s op t], elementwise *)
Definition szip (f : R → R → R) (s t : list cell) : result (list cell) :=
  mapM (λ p, lift2 f p.1 p.2) (zip s t).

(** [s op v] for a scalar cell [v] computed from the data *)
Definition sscalar (f : R → R → R) (s : list cell) (v : cell) : result (list cell) :=
  mapM (λ a, lift2 f a v) s.

(** The floats of a series, missing values skipped ([skipna=True]). *)
Definition floats (s : list cell) : result (list R) :=
  omap (λ o : option R, o) <$> mapM (λ a, match a with
                         | Num x => Ok (Some x)
                         | NaN => Ok None
                         | _ => Raise TypeError
                         end) s.

(** The floats of a series, whatever else it holds. *)
Definition nums (s : list cell) : list R :=
  omap (λ c, match c with Num x => Some x | _ => None end) s.

Definition Rmax_list (l : list R) : cell :=
  match l with
  | [] => NaN
  | x :: l' => Num (foldr Rmax x l')
  end.

(** [s.max()] *)
Definition smax (s : list cell) : result cell := Rmax_list <$> floats s.

Definition Rsum (l : list R) : R := foldr Rplus 0%R l.

Definition Rmean (l : list R) : cell :=
  match l with
  | [] => NaN
  | _ => Num (Rsum l / INR (length l))
  end.

(** [s.mean()] *)
Definition smean (s : list cell) : result cell := Rmean <$> floats s.

(** [df.groupby(key)[col].transform("mean")]: every row receives the mean
    of [col] over the rows that share its key; a row whose key is missing
    belongs to no group. *)
Definition groupby_transform_mean (key col : string) (df : DataFrame)
    : result (list cell) :=
  _ ← require key df;
  _ ← require col df;
  mapM (λ r,
          if isnull (at_ r key) then Ok NaN
          else smean ((λ r', at_ r' col) <$>
                        filter (λ r', at_ r' key = at_ r key) (rows df)))
       (rows df).

(** *** Joins *)

Inductive how := Inner | Left.

(** A column name both sides carry, outside the join key, gets the side's
    suffix. *)
Definition suffixed (sfx : string) (overlap : list string) (c : string) : string :=
  if decide (c ∈ overlap) then c +:+ sfx else c.

Definition overlapping (on : list string) (l r : DataFrame) : list string :=
  filter (λ c, (c ∉ on) ∧ c ∈ columns r) (columns l).

Definition merged_columns (on : list string) (l r : DataFrame) : list string :=
  (suffixed "_x" (overlapping on l r) <$> columns l) ++
  (suffixed "_y" (overlapping on l r) <$> filter (λ c, c ∉ on) (columns r)).

(** The row made of a left row and a right row; [∅] on the right stands
    for "no match": all its cells read as missing. *)
Definition joined (on : list string) (l r : DataFrame)
    (a b : gmap string cell) : gmap string cell :=
  list_to_map
    (((λ c, (suffixed "_x" (overlapping on l r) c, at_ a c)) <$> columns l) ++
     ((λ c, (suffixed "_y" (overlapping on l r) c, at_ b c)) <$>
        filter (λ c, c ∉ on) (columns r))).

Definition key_of (on : list string) (a : gmap string cell) : list cell :=
  at_ a <$> on.

(** [l.merge(r, how=h, on=on)].  Rows come in the order of the left table,
    the matches of one left row in the order of the right table; missing
    keys match each other, as in pandas.  A left row without a match is
    kept by a left join, with the right columns missing. *)
Definition matching (on : list string) (r : DataFrame) (a : gmap string cell)
    : list (gmap string cell) :=
  filter (λ b, key_of on b = key_of on a) (rows r).

Definition joined_rows (h : how) (on : list string) (l r : DataFrame)
    (a : gmap string cell) : list (gmap string cell) :=
  match matching on r a, h with
  | [], Left => [joined on l r a ∅]
  | bs, _ => joined on l r a <$> bs
  end.

Definition merge (h : how) (on : list string) (l r : DataFrame) : result DataFrame :=
  _ ← mapM (λ c, require c l) on;
  _ ← mapM (λ c, require c r) on;
  Ok {| columns := merged_columns on l r;
        rows := rows l ≫= joined_rows h on l r |}.

(** The position in a sorted key list that [direction="nearest"] picks for
    key [k]: the last key at or before [k] or the first key at or after it,
    whichever is closer, the earlier one on a tie. *)
Definition backward (keys : list nat) (k : nat) : option nat :=
  (λ p, length keys - 1 - p.1) <$> list_find (λ x, x ≤ k) (reverse keys).

Definition forward (keys : list nat) (k : nat) : option nat :=
  (λ p, p.1) <$> list_find (λ x, k ≤ x) keys.

Definition nearest (keys : list nat) (k : nat) : option nat :=
  match backward keys k, forward keys k with
  | Some b, Some f =>
      if decide (k - keys !!! b ≤ keys !!! f - k) then Some b else Some f
  | Some b, None => Some b
  | None, f => f
  end.

(** [pd.merge_asof(l, r, left_index=True, right_index=True,
    direction="nearest")] on two tables labelled by position. *)
Definition merge_asof_index_nearest (l r : DataFrame) : DataFrame :=
  {| columns := merged_columns [] l r;
     rows := imap (λ i a,
                     joined [] l r a
                       (default ∅ (nearest (seq 0 (length (rows r))) i
                                     ≫= λ j, rows r !! j)))
                  (rows l) |}.

(** [df.isnull().sum().sum()] *)
Definition count_missing (df : DataFrame) : nat :=
  sum_list ((λ r, length (filter (λ c, isnull (at_ r c)) (columns df))) <$> rows df).

(** [df.fillna(method="ffill")]: down the rows, a missing cell takes the
    last value seen above it in its column. *)
Fixpoint ffill_from (cols : list string) (seen : gmap string cell)
    (rs : list (gmap string cell)) : list (gmap string cell) :=
  match rs with
  | [] => []
  | r :: rs' =>
      let r' := list_to_map ((λ c, (c, if isnull (at_ r c) then at_ seen c
                                       else at_ r c)) <$> cols) ∪ r in
      r' :: ffill_from cols r' rs'
  end.

Definition ffill (df : DataFrame) : DataFrame :=
  {| columns := columns df; rows := ffill_from (columns df) ∅ (rows df) |}.

(** *** Shapes, fills and duplicates *)

(** [df.empty]: no row or no column. *)
Definition is_empty (df : DataFrame) : Prop := rows df = [] ∨ columns df = [].

(** [df[c] = v] for a scalar [v]: every row receives it. *)
Definition setitem_scalar (c : string) (v : cell) (df : DataFrame) : DataFrame :=
  setitem c (replicate (length (rows df)) v) df.

(** [df.drop(cs, axis=1, errors="ignore")]: a new table without the
    columns [cs]; a name the table lacks is ignored. *)
Definition drop_columns (cs : list string) (df : DataFrame) : DataFrame :=
  let kept := filter (λ c, c ∉ cs) (columns df) in
  {| columns := kept;
     rows := (λ r, list_to_map ((λ c, (c, at_ r c)) <$> kept)) <$> rows df |}.

(** [df.dropna()]: the rows without a missing value in any column. *)
Definition dropna_any (df : DataFrame) : DataFrame :=
  {| columns := columns df;
     rows := filter (λ r, Forall (λ c, notnull (at_ r c)) (columns df)) (rows df) |}.

(** [s.fillna(method="ffill")]: a missing value takes the last value
    above it; [s.fillna(method="bfill")]: the first value below it. *)
Fixpoint sffill_from (seen : cell) (s : list cell) : list cell :=
  match s with
  | [] => []
  | a :: s' =>
      let a' := if isnull a then seen else a in
      a' :: sffill_from a' s'
  end.

Definition sffill (s : list cell) : list cell := sffill_from NaN s.

Definition sbfill (s : list cell) : list cell := reverse (sffill (reverse s)).

(** [df.drop_duplicates(subset=cs)]: of the rows that agree on [cs], the
    first one is kept. *)
Fixpoint first_of_each (cs : list string) (seen : list (list cell))
    (rs : list (gmap string cell)) : list (gmap string cell) :=
  match rs with
  | [] => []
  | r :: rs' =>
      if decide (key_of cs r ∈ seen) then first_of_each cs seen rs'
      else r :: first_of_each cs (key_of cs r :: seen) rs'
  end.

Definition drop_duplicates (cs : list string) (df : DataFrame) : result DataFrame :=
  _ ← mapM (λ c, require c df) cs;
  Ok {| columns := columns df; rows := first_of_each cs [] (rows df) |}.

(** *** Dates and conversions *)

(** The civil year of a day count (proleptic Gregorian calendar). *)
Definition year_of_days (d : Z) : Z :=
  let z := (d + 719468)%Z in
  let era := (z `div` 146097)%Z in
  let doe := (z - era * 146097)%Z in
  let yoe := ((doe - doe `div` 1460 + doe `div` 36524 - doe `div` 146096) `div` 365)%Z in
  let doy := (doe - (365 * yoe + yoe `div` 4 - yoe `div` 100))%Z in
  let mp := ((5 * doy + 2) `div` 153)%Z in
  (yoe + era * 400 + (if decide (mp < 10)%Z then 0 else 1))%Z.

(** [s.dt.year]: only a datetime series has the accessor. *)
Definition dt_year (s : list cell) : result (list cell) :=
  mapM (λ a, match a with
             | Date d => Ok (Num (IZR (year_of_days d)))
             | NaN => Ok NaN
             | _ => Raise AttributeError
             end) s.

Section Parsing.

(** Python's reading of a text cell as a float, when it has one. *)
Variable float_of_text : string → option R.

(** [pd.to_numeric(s, errors="coerce")]: what cannot be read as a number
    becomes missing; a timestamp reads as its nanoseconds. *)
Definition to_numeric_coerce (s : list cell) : list cell :=
  (λ a, match a with
        | Str t => from_option Num NaN (float_of_text t)
        | Date d => Num (IZR (d * 86400000000000))
        | _ => a
        end) <$> s.

End Parsing.

End Pandas.

(** ** Arrays of floats (numpy) *)

Module Numpy.
Import Pandas.
Local Open Scope R_scope.

(** A float64 array that may hold NaN ([None]). *)
Abbreviation ndarray := (list (option R)).

Definition mean (a : list R) : R := Rsum a / INR (length a).

(** [np.std(a)], the population standard deviation, on a non-empty array
    of finite values. *)
Definition var (a : list R) : R := mean ((λ x, (x - mean a) * (x - mean a)) <$> a).
Definition std (a : list R) : R := sqrt (var a).

(** [np.polyfit(range(len(y)), y, 1)[0]]: the least-squares slope of [y]
    against its positions, for an array of two points or more. *)
Definition positions (n : nat) : list R := INR <$> seq 0 n.
Definition polyfit_slope (y : list R) : R :=
  let x := positions (length y) in
  Rsum (zip_with (λ xi yi, (xi - mean x) * (yi - mean y)) x y) /
  Rsum ((λ xi, (xi - mean x) * (xi - mean x)) <$> x).

(** [np.polyfit(x, y, 1)]: the least-squares line of [y] against [x], as
    the pair (slope, intercept), highest degree first, for abscissae that
    are not all equal. *)
Definition polyfit (x y : list R) : R * R :=
  let slope :=
    Rsum (zip_with (λ xi yi, (xi - mean x) * (yi - mean y)) x y) /
    Rsum ((λ xi, (xi - mean x) * (xi - mean x)) <$> x) in
  (slope, mean y - slope * mean x).

Definition lift (f : R → R → R) (x y : option R) : option R :=
  match x, y with Some a, Some b => Some (f a b) | _, _ => None end.

Definition of_cell (c : cell) : result (option R) :=
  match c with
  | Num x => Ok (Some x)
  | NaN => Ok None
  | _ => Raise (ValueError "could not convert to float")
  end.

Definition to_cell (x : option R) : cell := from_option Num NaN x.

(** The values of an array that are not NaN. *)
Definition finite (a : ndarray) : list R := omap (λ o : option R, o) a.

(** [np.nanmean(a)] *)
Definition nanmean (a : ndarray) : option R :=
  match finite a with [] => None | v => Some (mean v) end.

(** [np.mean(a)]: NaN as soon as one entry is. *)
Definition mean_strict (a : ndarray) : option R :=
  if decide (length (finite a) = length a ∧ a ≠ []) then Some (mean (finite a))
  else None.

(** [s.std()] of pandas: the sample standard deviation ([ddof=1]) of the
    values present. *)
Definition sample_std (a : ndarray) : option R :=
  let v := finite a in
  if decide (2 ≤ length v)%nat
  then Some (sqrt (Rsum ((λ x, (x - mean v) * (x - mean v)) <$> v)
                   / INR (length v - 1)))
  else None.

(** [s.interpolate(method="linear", limit_direction="both")]: a gap
    between two known values lies on the line through them, positions
    taken as equally spaced; a gap at either end repeats the nearest known
    value. *)
Definition known (a : ndarray) : list (nat * R) :=
  omap (λ p : nat * option R, pair p.1 <$> p.2) (imap pair a).

Definition interpolate (a : ndarray) : ndarray :=
  imap (λ k o,
          match o with
          | Some v => Some v
          | None =>
              match last (filter (λ p, p.1 ≤ k)%nat (known a)),
                    head (filter (λ p, k ≤ p.1)%nat (known a)) with
              | Some (i, y0), Some (j, y1) =>
                  Some (y0 + (y1 - y0) / (INR j - INR i) * (INR k - INR i))
              | Some (_, y0), None => Some y0
              | None, Some (_, y1) => Some y1
              | None, None => None
              end
          end) a.

End Numpy.

(** ** statsmodels.tsa.seasonal

    [seasonal_decompose] belongs to the statsmodels library, not to this
    repository; it is written here after the library's algorithm, for the
    call the manager makes ([model="additive"], a given [period], the
    default two-sided moving-average filter, no trend extrapolation). *)

Module Statsmodels.
Import Pandas Numpy.
Local Open Scope R_scope.

Record DecomposeResult := {
  seasonal : ndarray;
  trend : ndarray;
  resid : ndarray;
  observed : ndarray;
}.

(** The moving-average weights: a window of [period] points, split over
    [period + 1] points with half weights at the ends when [period] is
    even. *)
Definition filt (period : nat) : list R :=
  if Nat.even period
  then (λ w, w / INR period) <$> ([0.5] ++ replicate (period - 1) 1 ++ [0.5])
  else replicate period (1 / INR period).

(** [convolution_filter(x, filt, nsides=2)] for a filter of odd length
    [2 h + 1]: the centred weighted sum where the whole window lies inside
    the series, NaN on the [h] points at either end. *)
Definition convolution_filter (x : list R) (w : list R) : ndarray :=
  let h := (length w / 2)%nat in
  imap (λ i _,
          if decide (h ≤ i ∧ i + h < length x)%nat
          then Some (Rsum (zip_with Rmult (reverse w)
                                    (take (length w) (drop (i - h) x))))
          else None)
       x.

(** [seasonal_mean(x, period)]: for every phase, the mean of the values
    present at that phase. *)
Definition phase (period i : nat) (x : ndarray) : ndarray :=
  (imap pair x) ≫= λ p, if decide (p.1 `mod` period = i)%nat then [p.2] else [].

Definition seasonal_mean (x : ndarray) (period : nat) : ndarray :=
  (λ i, nanmean (phase period i x)) <$> seq 0 period.

Definition seasonal_decompose (x : list cell) (period : nat)
    : result DecomposeResult :=
  x ← mapM of_cell x;
  let nobs := length x in
  if decide (length (finite x) ≠ nobs)
  then Raise (ValueError "This function does not handle missing values")
  else if decide (nobs < 2 * period)%nat
  then Raise (ValueError "x must have 2 complete cycles")
  else
    let trend := convolution_filter (finite x) (filt period) in
    let detrended := zip_with (lift Rminus) x trend in
    let period_averages := seasonal_mean detrended period in
    let centre := mean_strict period_averages in
    let period_averages := (λ a, lift Rminus a centre) <$> period_averages in
    let seasonal := imap (λ i _, default None (period_averages !! (i `mod` period)%nat)) x in
    let resid := zip_with (lift Rminus) detrended seasonal in
    Ok {| seasonal := seasonal; trend := trend; resid := resid; observed := x |}.

End Statsmodels.

(** ** A call on a table the caller keeps

    A method that assigns into the [DataFrame] it is handed changes the
    caller's object.  Such a method is a function from the table before
    the call to the table after it and the outcome; an exception leaves
    the assignments made so far in place. *)

Module Mut.
Import Pandas.

Definition action (A : Type) : Type := DataFrame → DataFrame * result A.

#[global] Instance action_ret : MRet action := λ A a df, (df, Ok a).
#[global] Instance action_bind : MBind action := λ A B f m df,
  match m df with
  | (df', Ok a) => f a df'
  | (df', Raise e) => (df', Raise e)
  end.

(** [data[c]] *)
Definition read (c : string) : action (list cell) := λ df, (df, getitem c df).

(** [data[c] = s] *)
Definition write (c : string) (s : list cell) : action unit :=
  λ df, (setitem c s df, Ok ()).

(** A computation that does not touch the table. *)
Definition pure {A} (r : result A) : action A := λ df, (df, r).

(** [data[[c1, ..., cn]]] *)
Definition project (cs : list string) : action DataFrame :=
  λ df, (df, select cs df).

End Mut.

(** ** data_manager.py *)

Module AgriculturalDataManager.
Import Pandas Mut.
Local Open Scope R_scope.

(** The tables the manager holds once loaded. *)
Record manager := {
  monitoring_data : DataFrame;
  weather_data : DataFrame;
  soil_data : DataFrame;
  yield_history : DataFrame;
}.

(** [load_data(self)], from the four tables [read_csv] returned: the yield
    history gains the columns [annee] and [rendement]. *)
Definition load_data (float_of_text : string → option R)
    (monitoring weather soil yields : DataFrame) : result manager :=
  dates ← getitem "date" yields;
  annee ← dt_year dates;
  let yields := setitem "annee" annee yields in
  final ← getitem "rendement_final" yields;
  let yields := setitem "rendement" (to_numeric_coerce float_of_text final) yields in
  Ok {| monitoring_data := monitoring; weather_data := weather;
        soil_data := soil; yield_history := yields |}.

(** [prepare_features(self)].  [sort_index] on tables labelled by position
    changes nothing, so the two tables enter the join as they are. *)
Definition prepare_features (self : manager) : result DataFrame :=
  let data := merge_asof_index_nearest (monitoring_data self) (weather_data self) in
  data ← merge Left ["parcelle_id"] data (soil_data self);
  let missing := count_missing data in
  Ok (if decide (0 < missing)%nat then ffill data else data).

(** [_enrich_with_yield_history(self, data)] *)
Definition _enrich_with_yield_history (self : manager) (data : DataFrame)
    : result DataFrame :=
  history ← select ["parcelle_id"; "annee"; "rendement"] (yield_history self);
  enriched_data ← merge Left ["parcelle_id"] data history;
  moyen ← groupby_transform_mean "parcelle_id" "rendement" enriched_data;
  Ok (setitem "rendement_moyen" moyen enriched_data).

(** A value of the dictionary [analyze_yield_patterns] returns: a series
    with its index, or a float. *)
Inductive value :=
  | Series (index : list cell) (values : list cell)
  | Float (x : cell).

(** The series [history["rendement"]] as it enters the decomposition:
    when a value is missing, the gaps are interpolated and what is still
    missing is filled with the mean. *)
Definition imputed (rendement : list cell) : result (list cell) :=
  if decide (0 < length (filter (λ c, isnull c) rendement))%nat then
    a ← mapM Numpy.of_cell rendement;
    let filled := Numpy.to_cell <$> Numpy.interpolate a in
    m ← smean filled;
    Ok ((λ c, if isnull c then m else c) <$> filled)
  else Ok rendement.

(** [analyze_yield_patterns(self, parcelle_id)]: [None] is Python's
    [None]. *)
Definition analyze_yield_patterns (self : manager) (parcelle_id : string)
    : result (option (gmap string value)) :=
  history ← where_eq "parcelle_id" (Str parcelle_id) (yield_history self);
  if decide (rows history = [] ∨ columns history = []) then Ok None
  else if decide (length (rows history) < 3)%nat then Ok None
  else
    rendement ← getitem "rendement" history;
    rendement ← imputed rendement;
    date ← getitem "date" history;
    decomposition ← Statsmodels.seasonal_decompose rendement 12;
    let trend := Statsmodels.trend decomposition in
    let seasonal := Statsmodels.seasonal decomposition in
    let resid := Statsmodels.resid decomposition in
    let valid_trend := Numpy.finite trend in
    let slope := Numpy.polyfit_slope valid_trend in
    m ← smean rendement;
    variation_mean ← lift2 Rdiv (Numpy.to_cell (Numpy.sample_std resid)) m;
    Ok (Some (<["trend" := Series date (Numpy.to_cell <$> trend)]>
             (<["seasonal" := Series date (Numpy.to_cell <$> seasonal)]>
             (<["resid" := Series date (Numpy.to_cell <$> resid)]>
             (<["slope" := Float (Num slope)]>
             (<["variation_mean" := Float variation_mean]> ∅)))))).

(** [calculate_risk_metrics(self, data)].  Operands are evaluated left to
    right, as Python does. *)
Definition calculate_risk_metrics : action DataFrame :=
  stress ← read "stress_hydrique";
  capacite ← read "capacite_retention_eau";
  denom ← pure (smap (λ x, x + 1e-6) capacite);
  hydrique ← pure (szip Rdiv stress denom);
  _ ← write "risque_hydrique" hydrique;
  rh ← read "risque_hydrique";
  t1 ← pure (smap (λ x, 0.5 * x) rh);
  ndvi ← read "ndvi";
  u ← pure (smap (λ x, 1 - x) ndvi);
  t2 ← pure (smap (λ x, 0.3 * x) u);
  t12 ← pure (szip Rplus t1 t2);
  rm ← read "rendement_moyen";
  rm' ← read "rendement_moyen";
  mx ← pure (smax rm');
  norm ← pure (lift1 (λ x, x + 1e-6) mx);
  q ← pure (sscalar Rdiv rm norm);
  v ← pure (smap (λ x, 1 - x) q);
  t3 ← pure (smap (λ x, 0.2 * x) v);
  global ← pure (szip Rplus t12 t3);
  _ ← write "risque_global" global;
  project ["parcelle_id"; "risque_hydrique"; "risque_global"].

End AgriculturalDataManager.

(** ** analyzer.py *)

Module AgriculturalAnalyzer.
Import Pandas AgriculturalDataManager.
Local Open Scope R_scope.

(** The table [combined_data] of [analyze_yield_factors(self,
    parcelle_id)] as it stands before the model is fitted: the parcel's
    monitoring rows joined to the weather, soil and yield tables, the
    yield resolved, the rows without a yield dropped. *)
Definition combined_data (data_manager : manager) (parcelle_id : string)
    : result DataFrame :=
  parcelle_data ← where_eq "parcelle_id" (Str parcelle_id) (monitoring_data data_manager);
  let weather_data := weather_data data_manager in
  soil_data ← where_eq "parcelle_id" (Str parcelle_id) (soil_data data_manager);
  combined ← merge Inner ["date"] parcelle_data weather_data;
  combined ← merge Left ["parcelle_id"] combined soil_data;
  yields ← select ["parcelle_id"; "date"; "rendement_estime"; "rendement_final"]
             (yield_history data_manager);
  combined ← merge Left ["parcelle_id"; "date"] combined yields;
  final ← getitem "rendement_final" combined;
  estime ← getitem "rendement_estime" combined;
  let combined := setitem "rendement" (fillna final estime) combined in
  dropna "rendement" combined.

(** [_detect_yield_breakpoints(self, yield_series)], on a sequence of
    finite floats: the loop runs over [range(1, len(yield_series) - 1)]. *)
Definition _detect_yield_breakpoints (yield_series : list R) : list nat :=
  filter (λ i, Numpy.std yield_series
               < Rabs (yield_series !!! i - yield_series !!! (i - 1)%nat))
         (seq 1 (length yield_series - 2)).

(** [_analyze_performance_trend(self, parcelle_data)], on the columns
    [annee] and [rendement] of the parcel's data, complete and numeric:
    the coefficients of the linear trend. *)
Definition _analyze_performance_trend (annee rendement : list R) : R * R :=
  Numpy.polyfit annee rendement.



(** [_identify_limiting_factors(self, parcelle_data, correlations)]:
    [correlations[correlations < 0.2]] keeps the cells below the threshold
    and blanks the others; a missing cell compares false. *)
Definition below_threshold (a : cell) : result cell :=
  match a with
  | Num x => Ok (if decide (x < 0.2) then Num x else NaN)
  | NaN => Ok NaN
  | _ => Raise TypeError
  end.

Definition _identify_limiting_factors (correlations : DataFrame)
    : result DataFrame :=
  limiting ← mapM (λ r, cells ← mapM (λ c, v ← below_threshold (at_ r c);
                                           Ok (c, v))
                                     (columns correlations);
                        Ok (list_to_map cells : gmap string cell))
                  (rows correlations);
  Ok {| columns := columns correlations; rows := limiting |}.

(** [analyze_yield_factors(self, parcelle_id)] up to the validity check:
    the features [X] and the target [y] that go on to the encoding and the
    fit of the model. *)
Definition features_and_target (data_manager : manager) (parcelle_id : string)
    : result (DataFrame * list cell) :=
  combined_data ← combined_data data_manager parcelle_id;
  if decide ("rendement" ∉ columns combined_data)
  then Raise (KeyError "La colonne 'rendement' est manquante dans combined_data.")
  else
    let X := drop_columns ["rendement"; "parcelle_id"; "date"] combined_data in
    y ← getitem "rendement" combined_data;
    if decide (is_empty X ∨ y = [])
    then Raise (ValueError "Les données pour l'analyse des facteurs sont vides.")
    else Ok (X, y).

End AgriculturalAnalyzer.

(** ** map_visualization.py

    The map layers read the manager's tables and assign into them; what
    is drawn (folium) is outside the model. *)

Module AgriculturalMap.
Import Pandas AgriculturalDataManager.
Local Open Scope R_scope.

(** [validate_columns(self, dataset, required_columns)]: the caller's
    table after the call, which is also what the call returns. *)
Definition validate_columns (required_columns : list string) (dataset : DataFrame)
    : DataFrame :=
  foldl (λ dataset column,
           if decide (column ∈ columns dataset) then dataset
           else setitem_scalar column (Num 0) dataset)
        dataset required_columns.

(** The function applied to every yield:
    [max(0, min(x, 12)) if pd.notnull(x) else 0]. *)
Definition clamp (x : cell) : result cell :=
  match x with
  | Num v => Ok (Num (Rmax 0 (Rmin v 12)))
  | NaN => Ok (Num 0)
  | _ => Raise TypeError
  end.

(** [add_yield_history_layer(self)] up to the loop that draws the
    markers: the manager after the assignments, and the exception raised
    on the way, if any. *)
Definition add_yield_history_layer (self : manager) : manager * result unit :=
  let yield_history :=
    validate_columns ["latitude"; "longitude"; "rendement"] (yield_history self) in
  let validated :=
    {| monitoring_data := monitoring_data self; weather_data := weather_data self;
       soil_data := soil_data self; yield_history := yield_history |} in
  match getitem "rendement" yield_history ≫= mapM clamp with
  | Ok rendement =>
      ({| monitoring_data := monitoring_data self; weather_data := weather_data self;
          soil_data := soil_data self;
          yield_history := setitem "rendement" rendement yield_history |}, Ok ())
  | Raise e => (validated, Raise e)
  end.

(** [add_risk_heatmap(self)] up to the call of the heat-map plugin: the
    manager after the call and the list [heat_data]. *)
Definition add_risk_heatmap (self : manager) : manager * result (list (list cell)) :=
  let monitoring_data :=
    validate_columns ["latitude"; "longitude"; "risk_score"] (monitoring_data self) in
  ({| monitoring_data := monitoring_data; weather_data := weather_data self;
      soil_data := soil_data self; yield_history := yield_history self |},
   selected ← select ["latitude"; "longitude"; "risk_score"] monitoring_data;
   let risk_data := dropna_any selected in
   Ok ((λ row, [at_ row "latitude"; at_ row "longitude"; at_ row "risk_score"])
         <$> rows risk_data)).

End AgriculturalMap.

(** ** dashboard.py *)

Module AgriculturalDashboard.
Import Pandas AgriculturalDataManager.

Section Parsing.

Variable float_of_text : string → option R.

(** [create_data_sources(self)]: the manager's yield history after the
    assignments, and the table handed to [hist_source]. *)
Definition create_data_sources (data_manager : manager)
    : DataFrame * result DataFrame :=
  let yield_history := yield_history data_manager in
  match getitem "rendement" yield_history with
  | Raise e => (yield_history, Raise e)
  | Ok rendement =>
      let yield_history := setitem "rendement" (sffill (sbfill rendement)) yield_history in
      match getitem "annee" yield_history with
      | Raise e => (yield_history, Raise e)
      | Ok annee =>
          let yield_history :=
            setitem "annee" (to_numeric_coerce float_of_text annee) yield_history in
          (yield_history,
           known ← dropna "annee" yield_history;
           drop_duplicates ["parcelle_id"; "annee"] known)
      end
  end.

End Parsing.

End AgriculturalDashboard.

(** ** Notions the properties are stated with *)

Module Notions.
Import Pandas Mut.

(** The historical mean yield of a parcel: the mean of the yields the
    yield history records for it. *)
Definition parcel_mean (yield_history : DataFrame) (parcelle_id : cell) : cell :=
  if isnull parcelle_id then NaN
  else Rmean (nums ((λ y, at_ y "rendement") <$>
                      filter (λ y, at_ y "parcelle_id" = parcelle_id)
                             (rows yield_history))).

(** The yield of a fused row is resolved: the final yield when there is
    one, the estimate otherwise. *)
Definition rendement_resolved (r : gmap string cell) : Prop :=
  at_ r "rendement" =
  if isnull (at_ r "rendement_final") then at_ r "rendement_estime"
  else at_ r "rendement_final".

(** Every row of the fused table is joined to a weather record whose date
    is nearest to its own: no weather record is closer in time than the
    one it carries ([date_x] is the monitoring date, [date_y] the date of
    the weather record joined to it). *)
Definition joined_to_nearest_date (weather fused : DataFrame) : Prop :=
  ∀ e w x y z,
    e ∈ rows fused → w ∈ rows weather →
    at_ e "date_x" = Date x → at_ e "date_y" = Date y → at_ w "date" = Date z →
    (Z.abs (x - y) ≤ Z.abs (x - z))%Z.

(** [df'] is [df] with, at most, the columns [cs] assigned. *)
Definition assigned_only (cs : list string) (df df' : DataFrame) : Prop :=
  (∀ c, c ∈ columns df → c ∈ columns df') ∧
  length (rows df') = length (rows df) ∧
  ∀ i r r' c, rows df !! i = Some r → rows df' !! i = Some r' →
              c ∉ cs → r' !! c = r !! c.

(** An action whose every run assigns at most the columns [cs]. *)
Definition assigns (cs : list string) {A} (m : action A) : Prop :=
  ∀ df, assigned_only cs df (m df).1.

(** A cell of a datetime column: a timestamp or the missing value. *)
Definition date_or_missing (a : cell) : bool :=
  match a with Date _ | NaN => true | _ => false end.

(** The float a cell holds, if it holds one. *)
Definition float_of (c : cell) : option R :=
  match c with Num x => Some x | _ => None end.

(** A cell arithmetic accepts: a float or the missing value. *)
Definition float_or_missing (a : cell) : bool :=
  match a with Num _ | NaN => true | _ => false end.

(** The table has column [c], and the column holds only floats and
    missing values. *)
Definition float_column (c : string) (df : DataFrame) : Prop :=
  c ∈ columns df ∧ Forall (λ r, float_or_missing (at_ r c)) (rows df).

End Notions.

(** ** Sample tables

    A small data set: parcel P001 with two years of monthly yields, P002
    with two records (the later one not yet measured), P003 with five
    yearly records; two monitoring visits and two weather records. *)

Module Sample.
Import Pandas AgriculturalDataManager.
Local Open Scope R_scope.

Definition table (header : list string) (lines : list (list cell)) : DataFrame :=
  {| columns := header; rows := (λ line, list_to_map (zip header line)) <$> lines |}.

Definition monitoring : DataFrame :=
  table ["parcelle_id"; "date"; "ndvi"; "stress_hydrique"]
  [[Str "P002"; Date 19732; Num 0.6; Num 0.3];
   [Str "P001"; Date 19741; Num 0.7; Num 0.2]].

Definition weather : DataFrame :=
  table ["date"; "temperature"; "precipitation"]
  [[Date 19723; Num 5; Num 0];
   [Date 19732; Num 12; Num 3]].

Definition soil : DataFrame :=
  table ["parcelle_id"; "capacite_retention_eau"]
  [[Str "P001"; Num 0.4];
   [Str "P002"; Num 0.25]].

Definition yields : DataFrame :=
  table ["parcelle_id"; "date"; "rendement_estime"; "rendement_final"]
  [
   [Str "P001"; Date 18993; Num 53; Num 52];
   [Str "P001"; Date 19024; Num 51; Num 50];
   [Str "P001"; Date 19052; Num 49; Num 48];
   [Str "P001"; Date 19083; Num 52; Num 51];
   [Str "P001"; Date 19113; Num 56; Num 55];
   [Str "P001"; Date 19144; Num 61; Num 60];
   [Str "P001"; Date 19174; Num 67; Num 66];
   [Str "P001"; Date 19205; Num 70; Num 69];
   [Str "P001"; Date 19236; Num 64; Num 63];
   [Str "P001"; Date 19266; Num 59; Num 58];
   [Str "P001"; Date 19297; Num 55; Num 54];
   [Str "P001"; Date 19327; Num 52; Num 51];
   [Str "P001"; Date 19358; Num 55; Num 54];
   [Str "P001"; Date 19389; Num 53; Num 52];
   [Str "P001"; Date 19417; Num 50; Num 49];
   [Str "P001"; Date 19448; Num 54; Num 53];
   [Str "P001"; Date 19478; Num 59; Num 58];
   [Str "P001"; Date 19509; Num 63; Num 62];
   [Str "P001"; Date 19539; Num 69; Num 68];
   [Str "P001"; Date 19570; Num 71; Num 70];
   [Str "P001"; Date 19601; Num 67; Num 66];
   [Str "P001"; Date 19631; Num 61; Num 60];
   [Str "P001"; Date 19662; Num 56; Num 55];
   [Str "P001"; Date 19692; Num 54; Num 53];
   [Str "P002"; Date 19236; Num 41; Num 40];
   [Str "P002"; Date 19601; Num 5; NaN];
   [Str "P003"; Date 18140; Num 30; Num 30];
   [Str "P003"; Date 18506; Num 31; Num 31];
   [Str "P003"; Date 18871; Num 33; Num 33];
   [Str "P003"; Date 19236; Num 32; Num 32];
   [Str "P003"; Date 19601; Num 35; Num 35]].

Definition no_manager : manager :=
  {| monitoring_data := table [] []; weather_data := table [] [];
     soil_data := table [] []; yield_history := table [] [] |}.

(** The manager after [load_data]; no cell of the sample is text, so the
    reading of text as floats plays no part. *)
Definition loaded : manager :=
  match load_data (λ _, None) monitoring weather soil yields with
  | Ok m => m
  | Raise _ => no_manager
  end.

Definition gave_result {A} (r : result (option A)) : bool :=
  match r with Ok (Some _) => true | _ => false end.

(** Whether trend, seasonal and residual all have a value at a position
    of a result. *)
Definition all_defined (d : gmap string value) (i : nat) : bool :=
  match d !! "trend", d !! "seasonal", d !! "resid" with
  | Some (Series _ t), Some (Series _ s), Some (Series _ e) =>
      match t !! i, s !! i, e !! i with
      | Some (Num _), Some (Num _), Some (Num _) => true
      | _, _, _ => false
      end
  | _, _, _ => false
  end.

(** The analysis of P001, when it succeeds. *)
Definition patterns_P001 : gmap string value :=
  match analyze_yield_patterns loaded "P001" with
  | Ok (Some d) => d
  | _ => ∅
  end.

Definition or_else {A} (d : A) (r : result A) : A :=
  match r with Ok a => a | Raise _ => d end.

Definition is_ok {A} (r : result A) : bool :=
  match r with Ok _ => true | Raise _ => false end.

(** The fused table, the table enriched with the yield history, and the
    outcome of scoring it. *)
Definition features : DataFrame :=
  or_else (table [] []) (prepare_features loaded).

Definition enriched : DataFrame :=
  or_else (table [] []) (_enrich_with_yield_history loaded features).

Definition after_scoring : DataFrame := (calculate_risk_metrics enriched).1.

Definition scores : DataFrame :=
  or_else (table [] []) (calculate_risk_metrics enriched).2.

(** One observation on a soil whose retention capacity was recorded as
    negative. *)
Definition drained : DataFrame :=
  table ["parcelle_id"; "stress_hydrique"; "capacite_retention_eau"; "ndvi";
         "rendement_moyen"]
  [[Str "P009"; Num 1; Num (-1); Num 0.5; Num 40]].

Definition no_rows (r : result DataFrame) : bool :=
  match r with
  | Ok df => match rows df with [] => true | _ => false end
  | Raise _ => false
  end.

(** The [i]-th row of a table, for a position the table has. *)
Definition row_of (df : DataFrame) (i : nat) : gmap string cell :=
  default ∅ (rows df !! i).

(** The series of the breakpoint example. *)
Definition literal : list R := [5; 5; 5; 9; 5; 5].

End Sample.

(** ** Further examples *)

Module Examples.
Import Pandas AgriculturalDataManager.
Local Open Scope R_scope.

(** A manager whose first two observations are of parcels the soil
    table does not know, and the table [prepare_features] makes of it. *)
Definition unmapped : manager :=
  {| monitoring_data :=
       Sample.table ["parcelle_id"; "date"; "ndvi"; "stress_hydrique"]
         [[Str "P008"; Date 19732; Num 0.5; Num 0.1];
          [Str "P009"; Date 19733; Num 0.4; Num 0.2];
          [Str "P001"; Date 19741; Num 0.7; Num 0.2]];
     weather_data := Sample.weather;
     soil_data := Sample.soil;
     yield_history := Sample.table [] [] |}.

Definition fused : DataFrame :=
  Sample.or_else (Sample.table [] []) (prepare_features unmapped).

(** A manager loaded from a yield file in which parcel P005 has three
    records, none of them measured yet. *)
Definition unmeasured : manager :=
  Sample.or_else Sample.no_manager
    (load_data (λ _, None) Sample.monitoring Sample.weather Sample.soil
       (Sample.table ["parcelle_id"; "date"; "rendement_estime"; "rendement_final"]
          [[Str "P005"; Date 18871; Num 3; NaN];
           [Str "P005"; Date 19236; Num 3.5; NaN];
           [Str "P005"; Date 19601; Num 4; NaN]])).

(** The records a manager holds for a parcel. *)
Definition history_of (self : manager) (parcelle_id : string) : DataFrame :=
  Sample.or_else (Sample.table [] [])
    (where_eq "parcelle_id" (Str parcelle_id) (yield_history self)).

(** A season of parcel P010: two visits, a weather record and a yield
    record on the day of each, the second yield still an estimate. *)
Definition season : manager :=
  Sample.or_else Sample.no_manager
    (load_data (λ _, None)
       (Sample.table ["parcelle_id"; "date"; "ndvi"; "stress_hydrique"]
          [[Str "P010"; Date 19732; Num 0.6; Num 0.3];
           [Str "P010"; Date 19741; Num 0.7; Num 0.2]])
       (Sample.table ["date"; "temperature"; "precipitation"]
          [[Date 19732; Num 12; Num 3];
           [Date 19741; Num 8; Num 0]])
       (Sample.table ["parcelle_id"; "capacite_retention_eau"]
          [[Str "P010"; Num 0.3]])
       (Sample.table ["parcelle_id"; "date"; "rendement_estime"; "rendement_final"]
          [[Str "P010"; Date 19732; Num 6; Num 6.5];
           [Str "P010"; Date 19741; Num 7; NaN]])).

(** The features and the target [analyze_yield_factors] draws from it. *)
Definition inputs : DataFrame * list cell :=
  Sample.or_else (Sample.table [] [], [])
    (AgriculturalAnalyzer.features_and_target season "P010").

(** An observation that carries no vegetation index. *)
Definition unscored : DataFrame :=
  Sample.table ["parcelle_id"; "stress_hydrique"; "capacite_retention_eau"]
    [[Str "P001"; Num 0.2; Num 0.4]].

(** A correlation matrix over three variables, one pair of which has no
    correlation defined. *)
Definition correlations : DataFrame :=
  Sample.table ["rendement"; "temperature"; "precipitation"]
    [[Num 1; Num (-0.5); Num 0.15];
     [Num (-0.5); Num 1; NaN];
     [Num 0.15; NaN; Num 1]].

End Examples.

(** * Properties *)

(** ** The exception monad *)

Lemma bind_Ok {A B} (m : result A) (f : A → result B) (b : B) :
  m ≫= f = Ok b → ∃ a, m = Ok a ∧ f a = Ok b.
Proof. destruct m as [a|e]; [by exists a | discriminate]. Qed.

Lemma fmap_Ok {A B} (f : A → B) (m : result A) (b : B) :
  f <$> m = Ok b → ∃ a, m = Ok a ∧ b = f a.
Proof. destruct m as [a|e]; [|discriminate]. intros [= <-]. by exists a. Qed.

Lemma mapM_Ok {A B} (f : A → result B) (l : list A) (k : list B) :
  mapM f l = Ok k → Forall2 (λ x y, f x = Ok y) l k.
Proof.
  revert k. induction l as [|x l IH]; intros k; simpl.
  - intros [= <-]. constructor.
  - intros H. apply bind_Ok in H as (y & Hy & H).
    apply bind_Ok in H as (k' & Hk' & [= <-]).
    constructor; [done | by apply IH].
Qed.

Lemma mapM_Ok_length {A B} (f : A → result B) (l : list A) (k : list B) :
  mapM f l = Ok k → length k = length l.
Proof. intros H. symmetry. by eapply Forall2_length, mapM_Ok. Qed.

Lemma mapM_Ok_lookup {A B} (f : A → result B) (l : list A) (k : list B) i x :
  mapM f l = Ok k → l !! i = Some x → ∃ y, k !! i = Some y ∧ f x = Ok y.
Proof.
  intros H Hx. apply mapM_Ok in H.
  destruct (Forall2_lookup_l _ _ _ _ _ H Hx) as (y & ? & ?). eauto.
Qed.

Ltac inv_bind H :=
  let a := fresh "a" in
  let Ha := fresh "H" a in
  apply bind_Ok in H; destruct H as (a & Ha & H).

(** ** Yield-pattern analysis: the outcomes *)

Section YieldPatterns.
Import Pandas Numpy Statsmodels AgriculturalDataManager.

Lemma require_Ok c df u : require c df = Ok u → c ∈ columns df.
Proof. unfold require. by case_decide. Qed.

Lemma where_eq_Ok c v df df' :
  where_eq c v df = Ok df' →
  c ∈ columns df ∧ columns df' = columns df ∧
  rows df' = filter (λ r, notnull v ∧ at_ r c = v) (rows df).
Proof.
  unfold where_eq. intros H. inv_bind H. apply require_Ok in Ha.
  by injection H as <-.
Qed.

Lemma getitem_Ok c df s :
  getitem c df = Ok s → c ∈ columns df ∧ s = (λ r, at_ r c) <$> rows df.
Proof.
  unfold getitem. intros H. inv_bind H. apply require_Ok in Ha.
  by injection H as <-.
Qed.

Lemma imputed_length s s' : imputed s = Ok s' → length s' = length s.
Proof.
  unfold imputed. case_decide as Hmiss; [|by intros [= ->]].
  intros H. inv_bind H. inv_bind H. injection H as <-.
  apply mapM_Ok_length in Ha.
  unfold interpolate. by rewrite !length_fmap, length_imap.
Qed.

Lemma seasonal_decompose_Ok x period r :
  seasonal_decompose x period = Ok r →
  ∃ a, mapM of_cell x = Ok a ∧ length (finite a) = length a ∧
       (2 * period ≤ length a)%nat ∧ observed r = a ∧
       trend r = convolution_filter (finite a) (filt period) ∧
       resid r = zip_with (lift Rminus)
                   (zip_with (lift Rminus) a (trend r)) (seasonal r).
Proof.
  unfold seasonal_decompose. intros H. inv_bind H. exists a.
  case_decide as Hfin; [discriminate|]. case_decide as Hlen; [discriminate|].
  injection H as <-. simpl. repeat split; try done. lia.
Qed.

(** What every successful analysis has gone through. *)
Lemma analyze_yield_patterns_Some self pid d :
  analyze_yield_patterns self pid = Ok (Some d) →
  ∃ history rendement date dec variation,
    where_eq "parcelle_id" (Str pid) (yield_history self) = Ok history ∧
    (getitem "rendement" history ≫= imputed) = Ok rendement ∧
    getitem "date" history = Ok date ∧
    seasonal_decompose rendement 12 = Ok dec ∧
    d = <["trend" := Series date (to_cell <$> trend dec)]>
        (<["seasonal" := Series date (to_cell <$> seasonal dec)]>
        (<["resid" := Series date (to_cell <$> resid dec)]>
        (<["slope" := Float (Num (polyfit_slope (finite (trend dec))))]>
        (<["variation_mean" := Float variation]> ∅)))).
Proof.
  unfold analyze_yield_patterns. intros H. inv_bind H.
  case_decide as Hempty; [discriminate|]. case_decide as Hlen; [discriminate|].
  inv_bind H. inv_bind H. inv_bind H. inv_bind H. inv_bind H. inv_bind H.
  injection H as <-.
  eexists _, _, _, _, _. repeat split; try done.
  by rewrite Ha0.
Qed.

End YieldPatterns.

Section YieldOutcomes.
Import Pandas Numpy Statsmodels AgriculturalDataManager.

(** C4. A parcel whose selected yield history is empty or has fewer than
    three observations gets the no-result outcome [None]; no exception is
    raised. *)
Theorem short_history_gives_None self parcelle_id history :
  where_eq "parcelle_id" (Str parcelle_id) (yield_history self) = Ok history →
  length (rows history) < 3 →
  analyze_yield_patterns self parcelle_id = Ok None.
Proof.
  intros Hsel Hlen. unfold analyze_yield_patterns. rewrite Hsel. simpl.
  case_decide; [done|]. case_decide; [done | lia].
Qed.

(** P002 has exactly two yield records. *)
Lemma short_history_gives_None_witness :
  analyze_yield_patterns Sample.loaded "P002" = Ok None.
Proof.
  eapply short_history_gives_None; [reflexivity | vm_compute; lia].
Defined.

(** C10. A parcel whose yield history has between 3 and 23 observations
    makes [analyze_yield_patterns] raise: the decomposition with period 12
    refuses a series shorter than two periods. *)
Theorem mid_length_history_raises self parcelle_id history :
  where_eq "parcelle_id" (Str parcelle_id) (yield_history self) = Ok history →
  3 ≤ length (rows history) ≤ 23 →
  ∃ e, analyze_yield_patterns self parcelle_id = Raise e.
Proof.
  intros Hsel [Hlo Hhi]. unfold analyze_yield_patterns. rewrite Hsel. simpl.
  apply where_eq_Ok in Hsel as (Hcol & Hcols & _).
  case_decide as Hempty.
  { destruct Hempty as [Hr | Hc].
    - rewrite Hr in Hlo. simpl in Hlo. lia.
    - rewrite Hcols in Hc. rewrite Hc in Hcol. by apply elem_of_nil in Hcol. }
  case_decide; [lia|].
  destruct (getitem "rendement" history) as [s|e] eqn:Hs; [|by eexists].
  simpl. destruct (imputed s) as [s'|e] eqn:Hs'; [|by eexists].
  simpl. destruct (getitem "date" history) as [dt|e]; [|by eexists].
  simpl. destruct (seasonal_decompose s' 12) as [r|e] eqn:Hr; [|by eexists].
  exfalso. apply seasonal_decompose_Ok in Hr as (a & Ha & _ & Hlen & _).
  apply mapM_Ok_length in Ha. apply imputed_length in Hs'.
  apply getitem_Ok in Hs as [_ ->]. rewrite length_fmap in Hs'. lia.
Qed.

(** P003 has five yield records. *)
Lemma mid_length_history_raises_witness :
  ∃ e, analyze_yield_patterns Sample.loaded "P003" = Raise e.
Proof.
  eapply mid_length_history_raises; [reflexivity | vm_compute; lia].
Defined.

Lemma sample_analysis_succeeds :
  analyze_yield_patterns Sample.loaded "P001" = Ok (Some Sample.patterns_P001).
Proof.
  assert (Sample.gave_result (analyze_yield_patterns Sample.loaded "P001") = true)
    as Hgave by (vm_compute; reflexivity).
  unfold Sample.patterns_P001.
  by destruct (analyze_yield_patterns Sample.loaded "P001") as [[d|]|e].
Qed.

(** C9, as the code has it. The dictionary a successful analysis returns
    has exactly the five keys trend, seasonal, resid, slope and
    variation_mean. *)
Theorem result_has_five_fields self parcelle_id (d : gmap string value) :
  analyze_yield_patterns self parcelle_id = Ok (Some d) →
  dom d = list_to_set ["trend"; "seasonal"; "resid"; "slope"; "variation_mean"].
Proof.
  intros H.
  apply analyze_yield_patterns_Some in H as (? & ? & ? & ? & ? & _ & _ & _ & _ & ->).
  rewrite !dom_insert_L, dom_empty_L. simpl. set_solver.
Qed.

Lemma result_has_five_fields_witness :
  dom Sample.patterns_P001 =
  list_to_set ["trend"; "seasonal"; "resid"; "slope"; "variation_mean"].
Proof.
  apply (result_has_five_fields Sample.loaded "P001").
  exact sample_analysis_succeeds.
Defined.

(** C9, as stated, fails: the analysis of P001 succeeds and its result has
    neither a stability_index nor a breakpoints entry. *)
Lemma result_lacks_stability_index_and_breakpoints :
  ∃ d : gmap string value,
    analyze_yield_patterns Sample.loaded "P001" = Ok (Some d) ∧
    d !! "stability_index" = None ∧ d !! "breakpoints" = None.
Proof.
  exists Sample.patterns_P001. split; [exact sample_analysis_succeeds|].
  destruct (analyze_yield_patterns_Some _ _ _ sample_analysis_succeeds)
    as (? & ? & ? & ? & ? & _ & _ & _ & _ & ->).
  by rewrite !lookup_insert_ne, lookup_empty.
Qed.

Lemma to_cell_Num o x : to_cell o = Num x → o = Some x.
Proof. destruct o; simpl; [by intros [= ->] | discriminate]. Qed.

Lemma of_cell_Some c x : of_cell c = Ok (Some x) → c = Num x.
Proof. destruct c; simpl; try discriminate. by intros [= ->]. Qed.

(** The additive identity on the decomposition itself. *)
Lemma seasonal_decompose_additive x period r i t s e :
  seasonal_decompose x period = Ok r →
  trend r !! i = Some (Some t) →
  seasonal r !! i = Some (Some s) →
  resid r !! i = Some (Some e) →
  x !! i = Some (Num (t + s + e)%R).
Proof.
  intros H Ht Hs He.
  apply seasonal_decompose_Ok in H as (a & Ha & _ & _ & _ & _ & Hres).
  rewrite Hres in He. apply lookup_zip_with_Some in He as (u & v & Hv & Hu & Hsv).
  apply lookup_zip_with_Some in Hu as (xi & ti & -> & Hxi & Hti).
  rewrite Ht in Hti. injection Hti as <-. rewrite Hs in Hsv. injection Hsv as <-.
  destruct xi as [xi|]; [|discriminate]. simpl in Hv. injection Hv as ->.
  apply mapM_Ok in Ha.
  destruct (Forall2_lookup_r _ _ _ _ _ Ha Hxi) as (c & Hc & Hof).
  apply of_cell_Some in Hof as ->. rewrite Hc. do 2 f_equal. lra.
Qed.

(** C7. On a yield series the analysis decomposes, at every position where
    trend, seasonal and residual are all defined their sum is the value of
    the (imputed) input series. Floats being read as reals, the identity is
    exact. *)
Theorem decomposition_round_trip self parcelle_id (d : gmap string value) :
  analyze_yield_patterns self parcelle_id = Ok (Some d) →
  ∃ date trend seasonal resid history series,
    d !! "trend" = Some (Series date trend) ∧
    d !! "seasonal" = Some (Series date seasonal) ∧
    d !! "resid" = Some (Series date resid) ∧
    where_eq "parcelle_id" (Str parcelle_id) (yield_history self) = Ok history ∧
    (getitem "rendement" history ≫= imputed) = Ok series ∧
    ∀ i t s e,
      trend !! i = Some (Num t) →
      seasonal !! i = Some (Num s) →
      resid !! i = Some (Num e) →
      series !! i = Some (Num (t + s + e)%R).
Proof.
  intros H.
  apply analyze_yield_patterns_Some in H
    as (history & series & date & dec & v & Hh & Hs & _ & Hdec & ->).
  exists date, (to_cell <$> trend dec), (to_cell <$> seasonal dec),
    (to_cell <$> resid dec), history, series.
  repeat split; try done.
  intros i t s e Ht Hse He.
  rewrite list_lookup_fmap in Ht, Hse, He.
  destruct (trend dec !! i) as [ot|] eqn:Et; [|discriminate].
  destruct (seasonal dec !! i) as [os|] eqn:Es; [|discriminate].
  destruct (resid dec !! i) as [oe|] eqn:Ee; [|discriminate].
  simpl in *. injection Ht as Ht. injection Hse as Hse. injection He as He.
  apply to_cell_Num in Ht as ->. apply to_cell_Num in Hse as ->.
  apply to_cell_Num in He as ->.
  by eapply seasonal_decompose_additive.
Qed.

(** In the sample the three components are all defined from the seventh
    month to the eighteenth, and on the first and last six months the
    trend is not. *)
Lemma sample_decomposition_defined :
  (∀ i, 6 ≤ i < 18 → Sample.all_defined Sample.patterns_P001 i = true) ∧
  Sample.all_defined Sample.patterns_P001 5 = false ∧
  Sample.all_defined Sample.patterns_P001 18 = false.
Proof.
  split; [|split; vm_compute; reflexivity].
  intros i Hi.
  assert (i ∈ seq 6 12) as Hin by (apply elem_of_seq; lia).
  clear Hi. revert i Hin. apply Forall_forall.
  repeat (constructor; [vm_compute; reflexivity|]). constructor.
Qed.

Lemma decomposition_round_trip_witness :
  ∃ date trend seasonal resid history series,
    Sample.patterns_P001 !! "trend" = Some (Series date trend) ∧
    Sample.patterns_P001 !! "seasonal" = Some (Series date seasonal) ∧
    Sample.patterns_P001 !! "resid" = Some (Series date resid) ∧
    where_eq "parcelle_id" (Str "P001") (yield_history Sample.loaded) = Ok history ∧
    (getitem "rendement" history ≫= imputed) = Ok series ∧
    ∀ i t s e,
      trend !! i = Some (Num t) →
      seasonal !! i = Some (Num s) →
      resid !! i = Some (Num e) →
      series !! i = Some (Num (t + s + e)%R).
Proof.
  apply (decomposition_round_trip Sample.loaded "P001").
  exact sample_analysis_succeeds.
Defined.

End YieldOutcomes.

(** ** Breakpoints *)

Section Breakpoints.
Import Pandas Numpy AgriculturalAnalyzer.
Local Open Scope R_scope.

Abbreviation literal := Sample.literal.

Lemma var_literal : var literal = 20 / 9.
Proof. unfold var, mean, literal. simpl. field. Qed.

Lemma std_literal : 0 < std literal < 4.
Proof.
  unfold std. rewrite var_literal. split.
  - apply sqrt_lt_R0. lra.
  - replace 4 with (sqrt 16).
    + apply sqrt_lt_1_alt. lra.
    + replace 16 with (4 * 4) by lra. apply sqrt_square. lra.
Qed.

Lemma breakpoints_of_literal : _detect_yield_breakpoints literal = [3; 4]%nat.
Proof.
  pose proof std_literal as Hstd.
  assert (Rabs (5 - 5) = 0) as Hflat
    by (replace (5 - 5) with 0 by lra; apply Rabs_R0).
  assert (Rabs (9 - 5) = 4) as Hup
    by (replace (9 - 5) with 4 by lra; apply Rabs_pos_eq; lra).
  assert (Rabs (5 - 9) = 4) as Hdown
    by (rewrite Rabs_minus_sym; exact Hup).
  unfold _detect_yield_breakpoints. simpl length. simpl seq.
  rewrite !filter_cons, filter_nil. simpl. fold literal.
  rewrite Hflat, Hup, Hdown.
  repeat case_decide; first [reflexivity | lra].
Qed.

(** C5, as the code has it. At every position the loop visits, from 1 to
    [len - 2], the detector flags the position exactly when the jump from
    the previous value exceeds the standard deviation of the series; on
    [5,5,5,9,5,5] it flags 3 and 4, the jump up and the jump back. *)
Theorem breakpoints_flagged :
  (∀ (s : list R) (i : nat),
     (1 ≤ i < length s - 1)%nat →
     i ∈ _detect_yield_breakpoints s ↔
     std s < Rabs (s !!! i - s !!! (i - 1)%nat)) ∧
  _detect_yield_breakpoints [5; 5; 5; 9; 5; 5] = [3; 4]%nat.
Proof.
  split; [|exact breakpoints_of_literal].
  intros s i Hi. unfold _detect_yield_breakpoints.
  rewrite list_elem_of_filter, elem_of_seq. split.
  - by intros [Hjump _].
  - intros Hjump. split; [exact Hjump | lia].
Qed.

Lemma breakpoints_flagged_witness :
  (3%nat ∈ _detect_yield_breakpoints literal ↔
   std literal < Rabs (literal !!! 3%nat - literal !!! (3 - 1)%nat)).
Proof. apply (proj1 breakpoints_flagged literal 3%nat). simpl. lia. Defined.

(** C5, as stated, fails on its own example: position 4 is flagged too. *)
Lemma literal_flags_index_4 :
  ¬ (∀ i : nat, i ∈ _detect_yield_breakpoints [5; 5; 5; 9; 5; 5] → i = 3%nat).
Proof.
  intros H. specialize (H 4%nat).
  fold literal in H. rewrite breakpoints_of_literal in H.
  assert (4%nat = 3%nat) by (apply H; set_solver). discriminate.
Qed.

End Breakpoints.

(** ** Risk scoring *)

Section Risk.
Import Pandas Mut AgriculturalDataManager Notions.
Local Open Scope R_scope.

Lemma action_bind_Ok {A B} (m : action A) (f : A → action B) df df' b :
  (m ≫= f) df = (df', Ok b) →
  ∃ a df1, m df = (df1, Ok a) ∧ f a df1 = (df', Ok b).
Proof.
  unfold mbind, action_bind. destruct (m df) as [df1 [a|e]]; [|discriminate].
  intros H. by exists a, df1.
Qed.

Lemma read_Ok c df df1 s : read c df = (df1, Ok s) → df1 = df ∧ getitem c df = Ok s.
Proof. unfold read. by intros [= <- ->]. Qed.
Lemma pure_Ok {A} (r : result A) df df1 a : pure r df = (df1, Ok a) → df1 = df ∧ r = Ok a.
Proof. unfold pure. by intros [= <- ->]. Qed.
Lemma write_Ok c s df df1 u : write c s df = (df1, Ok u) → df1 = setitem c s df.
Proof. unfold write. by intros [= <-]. Qed.
Lemma project_Ok cs df df1 out : project cs df = (df1, Ok out) → df1 = df ∧ select cs df = Ok out.
Proof. unfold project. by intros [= <- ->]. Qed.

Ltac step H :=
  let a := fresh "a" in let df := fresh "df" in let Hs := fresh "Hs" in
  apply action_bind_Ok in H; destruct H as (a & df & Hs & H);
  first [ apply read_Ok in Hs; destruct Hs as [-> Hs]
        | apply pure_Ok in Hs; destruct Hs as [-> Hs]
        | apply write_Ok in Hs; subst df ].


Lemma getitem_lookup c df s i r :
  getitem c df = Ok s → rows df !! i = Some r → s !! i = Some (at_ r c).
Proof.
  intros H Hr. apply getitem_Ok in H as [_ ->].
  by rewrite list_lookup_fmap, Hr.
Qed.

Lemma smap_lookup f s s' i x :
  smap f s = Ok s' → s !! i = Some (Num x) → s' !! i = Some (Num (f x)).
Proof.
  intros H Hx. destruct (mapM_Ok_lookup _ _ _ _ _ H Hx) as (y & -> & Hy).
  simpl in Hy. by injection Hy as <-.
Qed.

Lemma szip_lookup f s t u i x y :
  szip f s t = Ok u → s !! i = Some (Num x) → t !! i = Some (Num y) →
  u !! i = Some (Num (f x y)).
Proof.
  intros H Hx Hy.
  assert (zip s t !! i = Some (Num x, Num y)) as Hxy.
  { apply lookup_zip_with_Some. eauto. }
  destruct (mapM_Ok_lookup _ _ _ _ _ H Hxy) as (z & -> & Hz).
  simpl in Hz. by injection Hz as <-.
Qed.

Lemma sscalar_lookup f s v u i x :
  sscalar f s (Num v) = Ok u → s !! i = Some (Num x) →
  u !! i = Some (Num (f x v)).
Proof.
  intros H Hx. destruct (mapM_Ok_lookup _ _ _ _ _ H Hx) as (z & -> & Hz).
  simpl in Hz. by injection Hz as <-.
Qed.

Lemma setitem_rows_lookup c s df i :
  rows (setitem c s df) !! i =
  (λ r, <[c := default NaN (s !! i)]> r) <$> rows df !! i.
Proof. unfold setitem. simpl. by rewrite list_lookup_imap. Qed.

Lemma at_insert c v (r : gmap string cell) : at_ (<[c := v]> r) c = v.
Proof. unfold at_. by rewrite lookup_insert_eq. Qed.

Lemma at_insert_ne c c' v (r : gmap string cell) :
  c ≠ c' → at_ (<[c := v]> r) c' = at_ r c'.
Proof. intros. unfold at_. by rewrite lookup_insert_ne. Qed.


Lemma floats_Ok s l : floats s = Ok l → l = nums s.
Proof.
  unfold floats. intros H. apply fmap_Ok in H as (a & Ha & ->).
  apply mapM_Ok in Ha. unfold nums.
  induction Ha as [|c o s a Hc _ IH]; [done|].
  destruct c; simpl in Hc; try discriminate; injection Hc as <-;
    simpl; [f_equal|]; exact IH.
Qed.

Lemma elem_of_nums s x : x ∈ nums s ↔ Num x ∈ s.
Proof.
  unfold nums. rewrite list_elem_of_omap. split.
  - intros (c & Hc & Hx). destruct c; try discriminate. by injection Hx as <-.
  - intros H. by exists (Num x).
Qed.

Lemma foldr_Rmax_ge x l : x <= foldr Rmax x l ∧ ∀ y, y ∈ l → y <= foldr Rmax x l.
Proof.
  induction l as [|z l [IH1 IH2]]; simpl.
  - split; [lra|]. intros y Hy. by apply elem_of_nil in Hy.
  - split.
    + etransitivity; [exact IH1 | apply Rmax_r].
    + intros y [->|Hy]%elem_of_cons; [apply Rmax_l|].
      etransitivity; [by apply IH2 | apply Rmax_r].
Qed.

Lemma foldr_Rmax_in x l : foldr Rmax x l ∈ x :: l.
Proof.
  induction l as [|z l IH]; simpl; [by left|].
  unfold Rmax at 1. destruct (Rle_dec _ _).
  - apply elem_of_cons in IH as [-> | IH]; [by left | by do 2 right].
  - right. by left.
Qed.

(** [Rmax_list] is the greatest element of a non-empty list. *)
Lemma Rmax_list_spec l x :
  x ∈ l → ∃ M, Rmax_list l = Num M ∧ M ∈ l ∧ ∀ y, y ∈ l → y <= M.
Proof.
  destruct l as [|z l]; [by intros ?%elem_of_nil|]. intros _.
  exists (foldr Rmax z l). split; [done|]. split; [apply foldr_Rmax_in|].
  destruct (foldr_Rmax_ge z l) as [Hz Hl].
  intros y [->|Hy]%elem_of_cons; [exact Hz | by apply Hl].
Qed.


Lemma select_rows_lookup cs df out i r :
  select cs df = Ok out → rows df !! i = Some r →
  rows out !! i = Some (list_to_map ((λ c, (c, at_ r c)) <$> cs)).
Proof.
  unfold select. intros H Hr. inv_bind H. injection H as <-. simpl.
  by rewrite list_lookup_fmap, Hr.
Qed.

Lemma smax_Num s mx i m :
  smax s = Ok mx → s !! i = Some (Num m) →
  ∃ M, mx = Num M ∧ Rmax_list (nums s) = Num M ∧ Num M ∈ s ∧
       ∀ y, Num y ∈ s → y <= M.
Proof.
  unfold smax. intros H Hm. apply fmap_Ok in H as (l & Hl & ->).
  apply floats_Ok in Hl as ->.
  assert (m ∈ nums s) as Hin.
  { apply elem_of_nums. by eapply list_elem_of_lookup_2. }
  destruct (Rmax_list_spec _ _ Hin) as (M & HM & HMin & Hle).
  exists M. repeat split; try done.
  - by apply elem_of_nums.
  - intros y Hy. by apply Hle, elem_of_nums.
Qed.

Lemma at_selected cs (r : gmap string cell) c :
  c ∈ cs → at_ (list_to_map ((λ c, (c, at_ r c)) <$> cs)) c = at_ r c.
Proof.
  induction cs as [|c' cs IH]; [by intros ?%elem_of_nil|].
  intros Hin. simpl. destruct (decide (c' = c)) as [->|Hne].
  - apply at_insert.
  - rewrite at_insert_ne by done. apply IH.
    apply elem_of_cons in Hin as [->|]; done.
Qed.

Ltac in_header := repeat first [by left | right].

Ltac risk_steps H :=
  unfold calculate_risk_metrics in H;
  do 20 step H; apply project_Ok in H; destruct H as [-> H].

(** The water-risk cell of a scored row. *)
Lemma risk_row_hydrique data data' out i r s c :
  calculate_risk_metrics data = (data', Ok out) →
  rows data !! i = Some r →
  at_ r "stress_hydrique" = Num s →
  at_ r "capacite_retention_eau" = Num c →
  ∃ r', rows out !! i = Some r' ∧
        at_ r' "parcelle_id" = at_ r "parcelle_id" ∧
        at_ r' "risque_hydrique" = Num (s / (c + 1e-6)).
Proof.
  intros H Hr Hs Hc. risk_steps H.
  pose proof (getitem_lookup _ _ _ _ _ Hs0 Hr) as E0. rewrite Hs in E0.
  pose proof (getitem_lookup _ _ _ _ _ Hs1 Hr) as E1. rewrite Hc in E1.
  pose proof (smap_lookup _ _ _ _ _ Hs2 E1) as E2. simpl in E2.
  pose proof (szip_lookup _ _ _ _ _ _ _ Hs3 E0 E2) as E3.
  eexists. split.
  - eapply select_rows_lookup; [exact H|].
    rewrite !setitem_rows_lookup, Hr. reflexivity.
  - rewrite !at_selected by in_header.
    rewrite !at_insert_ne by done. split; [done|].
    by rewrite at_insert, E3.
Qed.


Lemma getitem_setitem_ne c c' s df a :
  c ≠ c' → getitem c' (setitem c s df) = Ok a →
  a = (λ r, at_ r c') <$> rows df.
Proof.
  intros Hne H. apply getitem_Ok in H as [_ ->].
  apply list_eq. intros i.
  rewrite !list_lookup_fmap, setitem_rows_lookup.
  destruct (rows df !! i) as [r|]; [|done]. simpl.
  by rewrite at_insert_ne.
Qed.

(** The global-risk cell of a scored row. *)
Lemma risk_row_global data data' out i r s c n m :
  calculate_risk_metrics data = (data', Ok out) →
  rows data !! i = Some r →
  at_ r "stress_hydrique" = Num s →
  at_ r "capacite_retention_eau" = Num c →
  at_ r "ndvi" = Num n →
  at_ r "rendement_moyen" = Num m →
  ∃ M r',
    (∃ j rj, rows data !! j = Some rj ∧ at_ rj "rendement_moyen" = Num M) ∧
    (∀ j rj y, rows data !! j = Some rj → at_ rj "rendement_moyen" = Num y →
               y <= M) ∧
    rows out !! i = Some r' ∧
    at_ r' "risque_global" =
      Num (0.5 * (s / (c + 1e-6)) + 0.3 * (1 - n) + 0.2 * (1 - m / (M + 1e-6))).
Proof.
  intros H Hr Hs Hc Hn Hm. risk_steps H.
  pose proof (getitem_lookup _ _ _ _ _ Hs0 Hr) as E0. rewrite Hs in E0.
  pose proof (getitem_lookup _ _ _ _ _ Hs1 Hr) as E1. rewrite Hc in E1.
  pose proof (smap_lookup _ _ _ _ _ Hs2 E1) as E2. simpl in E2.
  pose proof (szip_lookup _ _ _ _ _ _ _ Hs3 E0 E2) as E3.
  assert (rows (setitem "risque_hydrique" a2 data) !! i
          = Some (<["risque_hydrique" := Num (s / (c + 1e-6))]> r)) as Hr1.
  { by rewrite setitem_rows_lookup, Hr, E3. }
  pose proof (getitem_lookup _ _ _ _ _ Hs5 Hr1) as E5. rewrite at_insert in E5.
  pose proof (smap_lookup _ _ _ _ _ Hs6 E5) as E6. simpl in E6.
  pose proof (getitem_lookup _ _ _ _ _ Hs7 Hr1) as E7.
  rewrite at_insert_ne, Hn in E7 by done.
  pose proof (smap_lookup _ _ _ _ _ Hs8 E7) as E8. simpl in E8.
  pose proof (smap_lookup _ _ _ _ _ Hs9 E8) as E9. simpl in E9.
  pose proof (szip_lookup _ _ _ _ _ _ _ Hs10 E6 E9) as E10.
  pose proof (getitem_lookup _ _ _ _ _ Hs11 Hr1) as E11.
  rewrite at_insert_ne, Hm in E11 by done.
  pose proof (getitem_lookup _ _ _ _ _ Hs12 Hr1) as E12.
  rewrite at_insert_ne, Hm in E12 by done.
  destruct (smax_Num _ _ _ _ Hs13 E12) as (M & -> & _ & HMin & HMle).
  apply getitem_setitem_ne in Hs12 as ->; [|done].
  simpl in Hs14. injection Hs14 as <-.
  pose proof (sscalar_lookup _ _ _ _ _ _ Hs15 E11) as E15.
  pose proof (smap_lookup _ _ _ _ _ Hs16 E15) as E16. simpl in E16.
  pose proof (smap_lookup _ _ _ _ _ Hs17 E16) as E17. simpl in E17.
  pose proof (szip_lookup _ _ _ _ _ _ _ Hs18 E10 E17) as E18.
  exists M. eexists. split; [|split; [|split]].
  - apply list_elem_of_fmap in HMin as (rj & Hrj & Hin).
    apply list_elem_of_lookup in Hin as [j Hj]. by exists j, rj.
  - intros j rj y Hj Hy. apply HMle. rewrite <- Hy.
    apply list_elem_of_fmap. exists rj. split; [done|].
    by eapply list_elem_of_lookup_2.
  - eapply select_rows_lookup; [exact H|].
    rewrite setitem_rows_lookup, Hr1. reflexivity.
  - rewrite at_selected by in_header. by rewrite at_insert, E18.
Qed.


(** *** What a call leaves alone *)

Lemma assigned_only_refl cs df : assigned_only cs df df.
Proof.
  split; [done|]. split; [done|]. intros i r r' c Hr Hr' _. congruence.
Qed.

Lemma assigned_only_trans cs df1 df2 df3 :
  assigned_only cs df1 df2 → assigned_only cs df2 df3 → assigned_only cs df1 df3.
Proof.
  intros (Hc1 & Hl1 & Hr1) (Hc2 & Hl2 & Hr2). split; [auto|]. split; [congruence|].
  intros i r1 r3 c H1 H3 Hc.
  destruct (lookup_lt_is_Some_2 (rows df2) i) as [r2 H2].
  { rewrite Hl1. by eapply lookup_lt_Some. }
  rewrite (Hr2 _ _ _ _ H2 H3 Hc). by eapply Hr1.
Qed.

Lemma assigned_only_setitem cs c s df :
  c ∈ cs → assigned_only cs df (setitem c s df).
Proof.
  intros Hc. split; [|split].
  - intros c' Hc'. unfold setitem. simpl. case_decide; [done|].
    apply elem_of_app. by left.
  - unfold setitem. simpl. by rewrite length_imap.
  - intros i r r' c' Hr Hr' Hc'. rewrite setitem_rows_lookup, Hr in Hr'.
    injection Hr' as <-. rewrite lookup_insert_ne; [done|]. by intros ->.
Qed.

Lemma assigns_bind cs {A B} (m : action A) (f : A → action B) :
  assigns cs m → (∀ a, assigns cs (f a)) → assigns cs (m ≫= f).
Proof.
  intros Hm Hf df. unfold mbind, action_bind.
  specialize (Hm df). destruct (m df) as [df1 [a|e]]; [|done].
  eapply assigned_only_trans; [exact Hm | apply Hf].
Qed.

Lemma assigns_read cs c : assigns cs (read c).
Proof. intros df. apply assigned_only_refl. Qed.

Lemma assigns_pure cs {A} (r : result A) : assigns cs (pure r).
Proof. intros df. apply assigned_only_refl. Qed.

Lemma assigns_project cs cs' : assigns cs (project cs').
Proof. intros df. apply assigned_only_refl. Qed.

Lemma assigns_write cs c s : c ∈ cs → assigns cs (write c s).
Proof. intros Hc df. by apply assigned_only_setitem. Qed.

Lemma calculate_risk_metrics_assigns :
  assigns ["risque_hydrique"; "risque_global"] calculate_risk_metrics.
Proof.
  unfold calculate_risk_metrics.
  repeat (apply assigns_bind;
          [first [apply assigns_read | apply assigns_pure
                 | apply assigns_write; set_solver] | intros ?]).
  apply assigns_project.
Qed.

Lemma setitem_columns c s df : c ∈ columns (setitem c s df).
Proof.
  unfold setitem. simpl. case_decide; [done|]. apply elem_of_app. right. by left.
Qed.

(** C6, as the code has it. Scoring assigns the columns risque_hydrique
    and risque_global in the caller's table: whatever the outcome, no row
    is added or removed, no column is removed and every cell of every
    other column is left as it was; when the call returns, the two columns
    are in the caller's table. *)
Theorem risk_scoring_assigns_two_columns data :
  let data' := (calculate_risk_metrics data).1 in
  (∀ c, c ∈ columns data → c ∈ columns data') ∧
  length (rows data') = length (rows data) ∧
  (∀ i r, rows data !! i = Some r →
     ∃ r', rows data' !! i = Some r' ∧
           ∀ c, c ≠ "risque_hydrique" → c ≠ "risque_global" → r' !! c = r !! c) ∧
  (∀ out, (calculate_risk_metrics data).2 = Ok out →
     "risque_hydrique" ∈ columns data' ∧ "risque_global" ∈ columns data').
Proof.
  intros data'.
  destruct (calculate_risk_metrics_assigns data) as (Hcols & Hlen & Hrows).
  fold data' in Hcols, Hlen, Hrows. split; [exact Hcols|]. split; [done|]. split.
  - intros i r Hr.
    destruct (lookup_lt_is_Some_2 (rows data') i) as [r' Hr'].
    { rewrite Hlen. by eapply lookup_lt_Some. }
    exists r'. split; [done|]. intros c H1 H2.
    eapply Hrows; [done..|].
    rewrite !not_elem_of_cons. repeat split; [done..|apply not_elem_of_nil].
  - intros out Hout. subst data'.
    destruct (calculate_risk_metrics data) as [df' res] eqn:H. simpl in *.
    subst res. risk_steps H. split.
    + destruct (assigned_only_setitem ["risque_global"] "risque_global" a17
                  (setitem "risque_hydrique" a2 data)) as [Hc _]; [by left|].
      apply Hc, setitem_columns.
    + apply setitem_columns.
Qed.

Lemma scoring_Ok data :
  Sample.is_ok (calculate_risk_metrics data).2 = true →
  calculate_risk_metrics data =
  ((calculate_risk_metrics data).1,
   Ok (Sample.or_else (Sample.table [] []) (calculate_risk_metrics data).2)).
Proof. by destruct (calculate_risk_metrics data) as [df [out|e]]. Qed.

Lemma sample_scoring :
  calculate_risk_metrics Sample.enriched = (Sample.after_scoring, Ok Sample.scores).
Proof. apply scoring_Ok. vm_compute. reflexivity. Qed.

(** C6, as stated, fails: after scoring the sample, the caller's table
    has two columns more than before. *)
Lemma risk_scoring_adds_columns :
  columns (calculate_risk_metrics Sample.enriched).1 =
    columns Sample.enriched ++ ["risque_hydrique"; "risque_global"] ∧
  (calculate_risk_metrics Sample.enriched).1 ≠ Sample.enriched.
Proof.
  assert (columns (calculate_risk_metrics Sample.enriched).1 =
          columns Sample.enriched ++ ["risque_hydrique"; "risque_global"]) as E
    by (vm_compute; reflexivity).
  split; [exact E|]. intros Heq. rewrite Heq in E.
  apply (f_equal length) in E. rewrite length_app in E.
  change (length ["risque_hydrique"; "risque_global"]) with 2%nat in E. lia.
Qed.

(** C8, as the code has it. For a scored row whose stress_hydrique is a
    float s >= 0 and whose capacite_retention_eau is a float c > -1e-6 (any
    capacity from zero up), the divisor c + 1e-6 is positive and
    risque_hydrique = s / (c + 1e-6) is >= 0. *)
Theorem risque_hydrique_nonneg data data' out i r s c :
  calculate_risk_metrics data = (data', Ok out) →
  rows data !! i = Some r →
  at_ r "stress_hydrique" = Num s →
  at_ r "capacite_retention_eau" = Num c →
  0 <= s → -1e-6 < c →
  0 < c + 1e-6 ∧
  ∃ r', rows out !! i = Some r' ∧
        at_ r' "risque_hydrique" = Num (s / (c + 1e-6)) ∧
        0 <= s / (c + 1e-6).
Proof.
  intros H Hr Hs Hc Hs0 Hc0. split; [lra|].
  destruct (risk_row_hydrique _ _ _ _ _ _ _ H Hr Hs Hc) as (r' & Hr' & _ & Hh).
  exists r'. repeat split; [done..|].
  apply Rmult_le_pos; [done|]. left. apply Rinv_0_lt_compat. lra.
Qed.

Lemma row_of_lookup df i :
  (i < length (rows df))%nat → rows df !! i = Some (Sample.row_of df i).
Proof.
  intros H. unfold Sample.row_of.
  by destruct (lookup_lt_is_Some_2 (rows df) i H) as [x ->].
Qed.

(** The P002 observation of the sample: stress 0.3, capacity 0.25. *)
Lemma risque_hydrique_nonneg_witness :
  0 < 0.25 + 1e-6 ∧
  ∃ r', rows Sample.scores !! 0%nat = Some r' ∧
        at_ r' "risque_hydrique" = Num (0.3 / (0.25 + 1e-6)) ∧
        0 <= 0.3 / (0.25 + 1e-6).
Proof.
  refine (risque_hydrique_nonneg Sample.enriched Sample.after_scoring
            Sample.scores 0%nat (Sample.row_of Sample.enriched 0) 0.3 0.25
            sample_scoring _ _ _ _ _).
  - apply row_of_lookup. vm_compute. lia.
  - vm_compute. reflexivity.
  - vm_compute. reflexivity.
  - lra.
  - lra.
Defined.

(** C8, as stated, fails: with stress 1 and a capacity recorded as -1 the
    water risk is negative. *)
Lemma negative_capacity_negative_risk :
  ∃ data' out r r' q,
    calculate_risk_metrics Sample.drained = (data', Ok out) ∧
    rows Sample.drained !! 0%nat = Some r ∧
    at_ r "stress_hydrique" = Num 1 ∧ 0 <= 1 ∧
    rows out !! 0%nat = Some r' ∧
    at_ r' "risque_hydrique" = Num q ∧ q < 0.
Proof.
  assert (Sample.is_ok (calculate_risk_metrics Sample.drained).2 = true) as Hok
    by (vm_compute; reflexivity).
  apply scoring_Ok in Hok.
  assert (rows Sample.drained !! 0%nat = Some (Sample.row_of Sample.drained 0))
    as Hr by (apply row_of_lookup; vm_compute; lia).
  assert (at_ (Sample.row_of Sample.drained 0) "stress_hydrique" = Num 1)
    as Hs by (vm_compute; reflexivity).
  assert (at_ (Sample.row_of Sample.drained 0) "capacite_retention_eau" = Num (-1))
    as Hc by (vm_compute; reflexivity).
  destruct (risk_row_hydrique _ _ _ _ _ _ _ Hok Hr Hs Hc) as (r' & Hr' & _ & Hh).
  eexists _, _, _, r', _.
  split; [exact Hok|]. split; [exact Hr|]. split; [exact Hs|].
  split; [lra|]. split; [exact Hr'|]. split; [exact Hh|]. lra.
Qed.

End Risk.

(** ** Enrichment with the yield history *)

Section Enrich.
Import Pandas Mut AgriculturalDataManager Notions.
Local Open Scope R_scope.

(** The first pair with a given key decides the lookup in a row built
    from a header. *)
Lemma list_to_map_header_hit {A} (key : A → string) (val : A → cell)
    (cols : list A) rest k v :
  (∃ c, c ∈ cols ∧ key c = k) →
  (∀ c, c ∈ cols → key c = k → val c = v) →
  (list_to_map (((λ c, (key c, val c)) <$> cols) ++ rest) : gmap string cell) !! k = Some v.
Proof.
  induction cols as [|c0 cols IH]; intros (c & Hin & Hk) Hval.
  - by apply elem_of_nil in Hin.
  - simpl. destruct (decide (key c0 = k)) as [E|E].
    + rewrite E, lookup_insert_eq. f_equal. apply Hval; [by left | done].
    + rewrite lookup_insert_ne by done. apply IH.
      * apply elem_of_cons in Hin as [->|Hin]; [done|]. eauto.
      * intros c' Hc'. apply Hval. by right.
Qed.

Lemma list_to_map_header_miss {A} (key : A → string) (val : A → cell)
    (cols : list A) rest k :
  (∀ c, c ∈ cols → key c ≠ k) →
  (list_to_map (((λ c, (key c, val c)) <$> cols) ++ rest) : gmap string cell) !! k
  = (list_to_map rest : gmap string cell) !! k.
Proof.
  induction cols as [|c0 cols IH]; intros Hne; [done|].
  simpl. rewrite lookup_insert_ne by (apply Hne; by left).
  apply IH. intros c Hc. apply Hne. by right.
Qed.

Lemma suffixed_inv sfx ov c k :
  suffixed sfx ov c = k → (c = k ∧ c ∉ ov) ∨ (c +:+ sfx = k ∧ c ∈ ov).
Proof. unfold suffixed. case_decide; intros <-; auto. Qed.

Ltac no_such_prefix c H :=
  repeat (destruct c as [|? c]; simpl in H;
          [discriminate H | injection H as -> H]);
  destruct c; discriminate H.

Lemma x_rendement c : c +:+ "_x" ≠ "rendement".
Proof. intros H. no_such_prefix c H. Qed.
Lemma x_parcelle_id c : c +:+ "_x" ≠ "parcelle_id".
Proof. intros H. no_such_prefix c H. Qed.
Lemma y_rendement c : c +:+ "_y" ≠ "rendement".
Proof. intros H. no_such_prefix c H. Qed.

Lemma merge_Ok h on l r df :
  merge h on l r = Ok df →
  (∀ c, c ∈ on → c ∈ columns l) ∧
  columns df = merged_columns on l r ∧
  rows df = rows l ≫= joined_rows h on l r.
Proof.
  unfold merge. intros H. inv_bind H. inv_bind H. injection H as <-.
  split; [|done]. intros c Hc. apply mapM_Ok in Ha.
  apply list_elem_of_lookup in Hc as [i Hi].
  destruct (Forall2_lookup_l _ _ _ _ _ Ha Hi) as (u & _ & Hu).
  by eapply require_Ok.
Qed.

Lemma overlapping_spec on l r c :
  c ∈ overlapping on l r ↔ c ∈ columns l ∧ (c ∉ on) ∧ c ∈ columns r.
Proof. unfold overlapping. rewrite list_elem_of_filter. tauto. Qed.

(** A join key keeps its name and its left value. *)
Lemma joined_key on l r a b c :
  c ∈ on → c ∈ columns l → (∀ c', c' +:+ "_x" ≠ c) →
  at_ (joined on l r a b) c = at_ a c.
Proof.
  intros Hon Hl Hx. unfold at_ at 1, joined.
  erewrite list_to_map_header_hit; [done| |].
  - exists c. split; [done|]. unfold suffixed.
    case_decide as Hov; [|done]. apply overlapping_spec in Hov. tauto.
  - intros c0 _ [[-> _]|[Hc0 _]]%suffixed_inv; [done|]. by apply Hx in Hc0.
Qed.

(** A column only the right table has keeps its name and its right
    value. *)
Lemma joined_right on l r a b c :
  c ∉ columns l → c ∉ on → c ∈ columns r →
  (∀ c', c' +:+ "_x" ≠ c) → (∀ c', c' +:+ "_y" ≠ c) →
  at_ (joined on l r a b) c = at_ b c.
Proof.
  intros Hl Hon Hr Hx Hy. unfold at_ at 1, joined.
  rewrite list_to_map_header_miss.
  - rewrite <- (app_nil_r (_ <$> filter _ _)).
    erewrite list_to_map_header_hit; [done| |].
    + exists c. split; [by apply list_elem_of_filter|]. unfold suffixed.
      case_decide as Hov; [|done]. apply overlapping_spec in Hov. tauto.
    + intros c0 _ [[-> _]|[Hc0 _]]%suffixed_inv; [done|]. by apply Hy in Hc0.
  - intros c0 Hc0 [[-> _]|[Hc0' _]]%suffixed_inv; [done|]. by apply Hx in Hc0'.
Qed.

(** With no match, every column the left table lacks is missing. *)
Lemma joined_unmatched on l r a c :
  (∀ c0, c0 ∈ columns l → suffixed "_x" (overlapping on l r) c0 ≠ c) →
  at_ (joined on l r a ∅) c = NaN.
Proof.
  intros Hl. unfold at_ at 1, joined. rewrite list_to_map_header_miss by done.
  destruct (_ !! c) as [v|] eqn:E; [|done]. simpl.
  apply elem_of_list_to_map_2, list_elem_of_fmap in E as (c0 & [= _ ->] & _).
  done.
Qed.


Lemma select_Ok cs df out :
  select cs df = Ok out →
  columns out = cs ∧
  rows out = (λ r, list_to_map ((λ c, (c, at_ r c)) <$> cs)) <$> rows df.
Proof. unfold select. intros H. inv_bind H. by injection H as <-. Qed.

Lemma nums_app s t : nums (s ++ t) = nums s ++ nums t.
Proof. unfold nums. apply omap_app. Qed.

Lemma Rsum_app a b : Rsum (a ++ b) = Rsum a + Rsum b.
Proof. unfold Rsum. induction a as [|x a IH]; simpl; [lra|]. rewrite IH. lra. Qed.

Lemma Rsum_repeat {A} (l : list A) (h : list R) :
  Rsum (l ≫= λ _, h) = INR (length l) * Rsum h.
Proof.
  induction l as [|x l IH]; [simpl; lra|].
  change ((x :: l) ≫= λ _, h) with (h ++ (l ≫= λ _, h)).
  rewrite Rsum_app, IH. change (length (x :: l)) with (S (length l)).
  rewrite S_INR. lra.
Qed.

Lemma length_repeat {A B} (l : list A) (h : list B) :
  length (l ≫= λ _, h) = (length l * length h)%nat.
Proof.
  induction l as [|x l IH]; [done|].
  change ((x :: l) ≫= λ _, h) with (h ++ (l ≫= λ _, h)).
  rewrite length_app, IH. simpl. lia.
Qed.

(** Repeating a sample does not change its mean. *)
Lemma Rmean_repeat {A} (l : list A) (h : list R) :
  l ≠ [] → Rmean (l ≫= λ _, h) = Rmean h.
Proof.
  intros Hl. destruct h as [|y h].
  - replace (l ≫= λ _, []) with (@nil R); [done|].
    induction l as [|x l IH]; [done|]. destruct l; [done|]. by apply IH.
  - assert (length l ≠ 0%nat) as Hn by (by destruct l).
    unfold Rmean. destruct (l ≫= _) as [|z t] eqn:E.
    + apply (f_equal length) in E. rewrite length_repeat in E. simpl in E. lia.
    + rewrite <- E, Rsum_repeat, length_repeat, mult_INR. f_equal.
      field. split; apply not_0_INR; [done | exact Hn].
Qed.


Lemma filter_all {A} (P : A → Prop) `{∀ x, Decision (P x)} (l : list A) :
  (∀ x, x ∈ l → P x) → filter P l = l.
Proof.
  induction l as [|x l IH]; intros HP; [done|].
  rewrite filter_cons_True by (apply HP; by left).
  f_equal. apply IH. intros y Hy. apply HP. by right.
Qed.

Lemma filter_none {A} (P : A → Prop) `{∀ x, Decision (P x)} (l : list A) :
  (∀ x, x ∈ l → ¬ P x) → filter P l = [].
Proof.
  induction l as [|x l IH]; intros HP; [done|].
  rewrite filter_cons_False by (apply HP; by left).
  apply IH. intros y Hy. apply HP. by right.
Qed.

Lemma filter_fmap {A B} (f : A → B) (P : B → Prop) `{∀ x, Decision (P x)}
    (l : list A) :
  filter P (f <$> l) = f <$> filter (λ x, P (f x)) l.
Proof.
  induction l as [|x l IH]; [done|]. rewrite fmap_cons.
  destruct (decide (P (f x))).
  - rewrite !filter_cons_True by done. rewrite fmap_cons. by f_equal.
  - by rewrite !filter_cons_False by done.
Qed.

Section Block.
Variables (data history : DataFrame).
Hypothesis Hpid : "parcelle_id" ∈ columns data.
Hypothesis Hrend : "rendement" ∉ columns data.
Hypothesis Hcols : columns history = ["parcelle_id"; "annee"; "rendement"].

Let block := joined_rows Left ["parcelle_id"] data history.
Let yields_of (k : cell) : list R :=
  nums ((λ y, at_ y "rendement") <$>
          filter (λ y, at_ y "parcelle_id" = k) (rows history)).

Lemma matching_parcelle a :
  matching ["parcelle_id"] history a =
  filter (λ y, at_ y "parcelle_id" = at_ a "parcelle_id") (rows history).
Proof.
  unfold matching. apply list_filter_iff. intros b. unfold key_of. simpl.
  split; [by intros [= ->] | by intros ->].
Qed.

Lemma block_key a e : e ∈ block a → at_ e "parcelle_id" = at_ a "parcelle_id".
Proof.
  unfold block, joined_rows. intros He.
  assert (∃ b, e = joined ["parcelle_id"] data history a b) as [b ->].
  { destruct (matching _ _ _) as [|b bs].
    - apply list_elem_of_singleton in He. eauto.
    - apply list_elem_of_fmap in He as (b' & -> & _). eauto. }
  apply joined_key; [by left | done | apply x_parcelle_id].
Qed.

Lemma block_yields a :
  nums ((λ e, at_ e "rendement") <$> block a) = yields_of (at_ a "parcelle_id").
Proof.
  unfold block, joined_rows, yields_of. rewrite <- matching_parcelle.
  destruct (matching _ _ _) as [|b bs].
  - simpl. rewrite joined_unmatched; [done|].
    intros c0 Hc0 [[-> _]|[Hx _]]%suffixed_inv; [done|]. by apply x_rendement in Hx.
  - rewrite <- list_fmap_compose. f_equal. apply list_fmap_ext.
    intros i y _. simpl. apply joined_right.
    + done.
    + by intros ?%list_elem_of_singleton.
    + rewrite Hcols. by do 2 right; left.
    + apply x_rendement.
    + apply y_rendement.
Qed.

Lemma group_yields (L : list (gmap string cell)) k :
  nums ((λ e, at_ e "rendement") <$>
          filter (λ e, at_ e "parcelle_id" = k) (L ≫= block)) =
  filter (λ a, at_ a "parcelle_id" = k) L ≫= λ _, yields_of k.
Proof.
  induction L as [|a L IH]; [done|].
  rewrite bind_cons, filter_app, fmap_app, nums_app, IH.
  destruct (decide (at_ a "parcelle_id" = k)) as [E|E].
  - rewrite filter_cons_True, bind_cons by done. f_equal.
    rewrite filter_all; [by rewrite block_yields, E|].
    intros e He. by rewrite (block_key a e He).
  - rewrite filter_cons_False by done.
    rewrite filter_none; [done|].
    intros e He. by rewrite (block_key a e He).
Qed.

End Block.

Lemma rendement_from_history data history :
  columns history = ["parcelle_id"; "annee"; "rendement"] →
  "rendement" ∈ merged_columns ["parcelle_id"] data history →
  "rendement" ∉ columns data.
Proof.
  intros Hcols Hin Hdata.
  assert ("rendement" ∈ overlapping ["parcelle_id"] data history) as Hov.
  { apply overlapping_spec. rewrite Hcols. split; [done|]. split.
    - by intros ?%list_elem_of_singleton.
    - by do 2 right; left. }
  unfold merged_columns in Hin. rewrite Hcols in Hin.
  apply elem_of_app in Hin as [Hin|Hin].
  - apply list_elem_of_fmap in Hin as (c & Hc & _). symmetry in Hc.
    apply suffixed_inv in Hc as [[-> Hno]|[Hx _]]; [done|].
    by apply x_rendement in Hx.
  - rewrite <- Hcols in Hin.
    apply list_elem_of_fmap in Hin as (c & Hc & _). symmetry in Hc.
    apply suffixed_inv in Hc as [[-> Hno]|[Hy _]]; [done|].
    by apply y_rendement in Hy.
Qed.

(** After enrichment every row carries, as rendement_moyen, the mean of
    the yields its parcel has in the yield history. *)
Lemma enriched_rendement_moyen self data enriched i r :
  _enrich_with_yield_history self data = Ok enriched →
  rows enriched !! i = Some r →
  at_ r "rendement_moyen" = parcel_mean (yield_history self) (at_ r "parcelle_id").
Proof.
  unfold _enrich_with_yield_history. intros H Hr.
  inv_bind H. inv_bind H. inv_bind H. injection H as <-.
  rename a into history, a0 into merged, a1 into moyen.
  apply select_Ok in Ha as [Hcols Hrows].
  apply merge_Ok in Ha0 as (Hon & Hmc & Hmr).
  unfold groupby_transform_mean in Ha1. inv_bind Ha1. inv_bind Ha1.
  apply require_Ok in Ha0. rewrite Hmc in Ha0.
  pose proof (rendement_from_history _ _ Hcols Ha0) as Hrend.
  assert ("parcelle_id" ∈ columns data) as Hpid by (apply Hon; by left).
  rewrite setitem_rows_lookup in Hr.
  destruct (rows merged !! i) as [e|] eqn:He; [|discriminate].
  injection Hr as <-.
  destruct (mapM_Ok_lookup _ _ _ _ _ Ha1 He) as (y & Hy & Hmean).
  rewrite Hy, at_insert, at_insert_ne by done. simpl.
  unfold parcel_mean. destruct (isnull (at_ e "parcelle_id")); [by injection Hmean|].
  unfold smean in Hmean. apply fmap_Ok in Hmean as (l & Hl & ->).
  apply floats_Ok in Hl as ->. rewrite Hmr.
  rewrite (group_yields data history Hpid Hrend Hcols).
  rewrite Rmean_repeat.
  - do 2 f_equal. rewrite Hrows, filter_fmap, <- list_fmap_compose.
    match goal with
    | |- _ <$> filter ?P _ = _ =>
        rewrite (list_filter_iff P (λ y, at_ y "parcelle_id" = at_ e "parcelle_id"))
    end.
    + apply list_fmap_ext. intros j y _.
      apply (at_selected ["parcelle_id"; "annee"; "rendement"]).
      by do 2 right; left.
    + intros y.
      rewrite (at_selected ["parcelle_id"; "annee"; "rendement"]); [done | by left].
  - apply list_elem_of_lookup_2 in He. rewrite Hmr in He.
    apply list_elem_of_bind in He as (src & He & Hsrc).
    apply (block_key data history Hpid) in He.
    intros Hnil.
    assert (src ∈ filter (λ a, at_ a "parcelle_id" = at_ e "parcelle_id")
                         (rows data)) as Hin.
    { by apply list_elem_of_filter. }
    rewrite Hnil in Hin. by apply elem_of_nil in Hin.
Qed.


(** C3. On the table enriched with the yield history, the global risk of
    a row with stress s, capacity c and vegetation index n is
    0.5 * (s / (c + 1e-6)) + 0.3 * (1 - n) + 0.2 * (1 - m / (M + 1e-6)),
    where m is the historical mean yield of the row's parcel and M the
    greatest such mean over the rows of the table. *)
Theorem risque_global_formula self data enriched data' out i r s c n m :
  _enrich_with_yield_history self data = Ok enriched →
  calculate_risk_metrics enriched = (data', Ok out) →
  rows enriched !! i = Some r →
  at_ r "stress_hydrique" = Num s →
  at_ r "capacite_retention_eau" = Num c →
  at_ r "ndvi" = Num n →
  parcel_mean (yield_history self) (at_ r "parcelle_id") = Num m →
  ∃ M r',
    (∃ j rj, rows enriched !! j = Some rj ∧
             parcel_mean (yield_history self) (at_ rj "parcelle_id") = Num M) ∧
    (∀ j rj y, rows enriched !! j = Some rj →
               parcel_mean (yield_history self) (at_ rj "parcelle_id") = Num y →
               y <= M) ∧
    rows out !! i = Some r' ∧
    at_ r' "risque_global" =
      Num (0.5 * (s / (c + 1e-6)) + 0.3 * (1 - n) + 0.2 * (1 - m / (M + 1e-6))).
Proof.
  intros Henr Hcalc Hr Hs Hc Hn Hm.
  rewrite <- (enriched_rendement_moyen _ _ _ _ _ Henr Hr) in Hm.
  destruct (risk_row_global _ _ _ _ _ _ _ _ _ Hcalc Hr Hs Hc Hn Hm)
    as (M & r' & (j & rj & Hj & HM) & Hle & Hr' & Hg).
  exists M, r'. split; [|split; [|done]].
  - exists j, rj. split; [done|].
    by rewrite <- (enriched_rendement_moyen _ _ _ _ _ Henr Hj).
  - intros j' rj' y Hj' Hy. apply (Hle j' rj'); [done|].
    by rewrite (enriched_rendement_moyen _ _ _ _ _ Henr Hj').
Qed.

Lemma sample_enrichment :
  _enrich_with_yield_history Sample.loaded Sample.features = Ok Sample.enriched.
Proof.
  assert (Sample.is_ok (_enrich_with_yield_history Sample.loaded Sample.features)
          = true) as Hok by (vm_compute; reflexivity).
  unfold Sample.enriched.
  by destruct (_enrich_with_yield_history Sample.loaded Sample.features).
Qed.

(** The P002 observation of the sample: stress 0.3, capacity 0.25, index
    0.6, and one measured yield, 40. *)
Lemma risque_global_formula_witness :
  ∃ M r',
    (∃ j rj, rows Sample.enriched !! j = Some rj ∧
             parcel_mean (yield_history Sample.loaded) (at_ rj "parcelle_id")
             = Num M) ∧
    (∀ j rj y, rows Sample.enriched !! j = Some rj →
               parcel_mean (yield_history Sample.loaded) (at_ rj "parcelle_id")
               = Num y →
               y <= M) ∧
    rows Sample.scores !! 0%nat = Some r' ∧
    at_ r' "risque_global" =
      Num (0.5 * (0.3 / (0.25 + 1e-6)) + 0.3 * (1 - 0.6)
           + 0.2 * (1 - 40 / (M + 1e-6))).
Proof.
  refine (risque_global_formula Sample.loaded Sample.features Sample.enriched
            Sample.after_scoring Sample.scores 0%nat
            (Sample.row_of Sample.enriched 0) 0.3 0.25 0.6 40
            sample_enrichment sample_scoring _ _ _ _ _).
  - apply row_of_lookup. vm_compute. lia.
  - vm_compute. reflexivity.
  - vm_compute. reflexivity.
  - vm_compute. reflexivity.
  - vm_compute. f_equal. lra.
Defined.

End Enrich.

(** ** Joining by position *)

Section Position.
Import Pandas Notions.

Lemma forward_seq m k :
  forward (seq 0 m) k = if decide (k < m) then Some k else None.
Proof.
  unfold forward. case_decide as Hk.
  - assert (list_find (λ x, k ≤ x) (seq 0 m) = Some (k, k)) as ->; [|done].
    apply list_find_Some. split; [by apply lookup_seq_lt|]. split; [done|].
    intros j y Hy Hj. apply lookup_seq in Hy as [-> _]. simpl. lia.
  - assert (list_find (λ x, k ≤ x) (seq 0 m) = None) as ->; [|done].
    apply list_find_None, Forall_forall. intros x Hx.
    apply elem_of_seq in Hx. lia.
Qed.

Lemma backward_seq m k :
  backward (seq 0 m) k = if decide (m = 0) then None else Some (k `min` (m - 1)).
Proof.
  unfold backward. rewrite length_seq. case_decide as Hm.
  - subst m. done.
  - assert (list_find (λ x, x ≤ k) (reverse (seq 0 m))
            = Some (m - 1 - k `min` (m - 1), k `min` (m - 1))) as ->.
    { apply list_find_Some. split; [|split].
      - rewrite reverse_lookup by (rewrite length_seq; lia).
        rewrite length_seq. apply lookup_seq. lia.
      - lia.
      - intros j y Hy Hj.
        rewrite reverse_lookup in Hy by (rewrite length_seq; lia).
        rewrite length_seq in Hy. apply lookup_seq in Hy as [-> _]. lia. }
    simpl. f_equal. lia.
Qed.

(** On row positions, the nearest label is the position itself, or the
    last one when the right table is shorter. *)
Lemma nearest_seq m k :
  nearest (seq 0 m) k = if decide (m = 0) then None else Some (k `min` (m - 1)).
Proof.
  unfold nearest. rewrite backward_seq, forward_seq.
  case_decide as Hm.
  - subst m. by case_decide; [lia|].
  - case_decide as Hk; [|done].
    replace (k `min` (m - 1)) with k by lia.
    rewrite !(list_lookup_total_correct _ _ k) by (by apply lookup_seq_lt).
    by case_decide; [|lia].
Qed.

(** [merge_asof] on the index joins the [i]-th left row to the right row
    at the same position, the last right row standing in when the right
    table is shorter. *)
Lemma merge_asof_by_position l r i a b :
  rows l !! i = Some a →
  rows r !! (i `min` (length (rows r) - 1)) = Some b →
  rows (merge_asof_index_nearest l r) !! i = Some (joined [] l r a b).
Proof.
  intros Ha Hb. unfold merge_asof_index_nearest. simpl.
  rewrite list_lookup_imap, Ha. simpl. rewrite nearest_seq.
  case_decide as Hm.
  - apply lookup_lt_Some in Hb. lia.
  - simpl. by rewrite Hb.
Qed.
End Position.

(** ** Fusion *)

Section Fusion.
Import Pandas Mut AgriculturalDataManager AgriculturalAnalyzer Notions.
Local Open Scope R_scope.

Lemma dropna_Ok c df out :
  dropna c df = Ok out →
  rows out = filter (λ r, notnull (at_ r c)) (rows df).
Proof. unfold dropna. intros H. inv_bind H. by injection H as <-. Qed.

Lemma fillna_lookup s t i a :
  s !! i = Some a →
  fillna s t !! i = Some (if isnull a then default NaN (t !! i) else a).
Proof. intros H. unfold fillna. by rewrite list_lookup_imap, H. Qed.

(** The fused table of [analyze_yield_factors] resolves the yield and
    keeps no row without one. *)
Lemma combined_data_resolved data_manager parcelle_id combined r :
  combined_data data_manager parcelle_id = Ok combined →
  r ∈ rows combined →
  rendement_resolved r ∧ notnull (at_ r "rendement").
Proof.
  unfold combined_data. intros H Hr. do 8 inv_bind H.
  apply dropna_Ok in H. rewrite H in Hr.
  apply list_elem_of_filter in Hr as [Hnn Hr]. split; [|done].
  apply list_elem_of_lookup in Hr as [i Hi].
  rewrite setitem_rows_lookup in Hi.
  destruct (rows a4 !! i) as [e|] eqn:He; [|discriminate]. injection Hi as <-.
  pose proof (getitem_lookup _ _ _ _ _ Ha5 He) as Hf.
  pose proof (getitem_lookup _ _ _ _ _ Ha6 He) as Hes.
  unfold rendement_resolved.
  rewrite at_insert, !at_insert_ne by done.
  by rewrite (fillna_lookup _ _ _ _ Hf), Hes.
Qed.

Lemma to_numeric_coerce_lookup f s i a :
  s !! i = Some a →
  to_numeric_coerce f s !! i =
  Some (match a with
        | Str t => from_option Num NaN (f t)
        | Date d => Num (IZR (d * 86400000000000))
        | _ => a
        end).
Proof. intros H. unfold to_numeric_coerce. by rewrite list_lookup_fmap, H. Qed.

(** What [load_data] stores as the yield of a record: its final yield,
    made numeric; the estimate plays no part. *)
Lemma load_data_rendement f monitoring weather soil yields self i r x :
  load_data f monitoring weather soil yields = Ok self →
  rows (yield_history self) !! i = Some r →
  (at_ r "rendement_final" = Num x → at_ r "rendement" = Num x) ∧
  (at_ r "rendement_final" = NaN → at_ r "rendement" = NaN).
Proof.
  unfold load_data. intros H Hr. do 3 inv_bind H. injection H as <-.
  cbn [yield_history] in Hr. rewrite !setitem_rows_lookup in Hr.
  destruct (rows yields !! i) as [y|] eqn:Hy; [|discriminate].
  injection Hr as <-.
  assert (rows (setitem "annee" a0 yields) !! i
          = Some (<["annee" := default NaN (a0 !! i)]> y)) as Hy1
    by (by rewrite setitem_rows_lookup, Hy).
  pose proof (getitem_lookup _ _ _ _ _ Ha1 Hy1) as Hfinal.
  rewrite (to_numeric_coerce_lookup _ _ _ _ Hfinal).
  rewrite at_insert, !at_insert_ne by done. simpl.
  split; by intros ->.
Qed.

Lemma sample_loading :
  load_data (λ _, None) Sample.monitoring Sample.weather Sample.soil Sample.yields
  = Ok Sample.loaded.
Proof.
  assert (Sample.is_ok (load_data (λ _, None) Sample.monitoring Sample.weather
                          Sample.soil Sample.yields) = true) as Hok
    by (vm_compute; reflexivity).
  unfold Sample.loaded. by destruct (load_data _ _ _ _ _).
Qed.

Lemma sample_features :
  prepare_features Sample.loaded = Ok Sample.features.
Proof.
  assert (Sample.is_ok (prepare_features Sample.loaded) = true) as Hok
    by (vm_compute; reflexivity).
  unfold Sample.features. by destruct (prepare_features Sample.loaded).
Qed.

(** C1 asks that every fused row carry rendement_final as its yield when
    there is one and rendement_estime otherwise, and that rows with
    neither be absent. The fusion of [analyze_yield_factors] does so
    ([combined_data_resolved]); the manager's own tables do not. The
    second record of P002 has an estimate, 5, and no final yield: after
    [load_data] its yield is missing, not 5, and the enriched table keeps
    a row of P002 without a yield. *)
Theorem load_data_ignores_estimate :
  let y := Sample.row_of (yield_history Sample.loaded) 25 in
  let e := Sample.row_of Sample.enriched 1 in
  rows (yield_history Sample.loaded) !! 25%nat = Some y ∧
  at_ y "rendement_final" = NaN ∧
  at_ y "rendement_estime" = Num 5 ∧
  at_ y "rendement" = NaN ∧
  ¬ rendement_resolved y ∧
  rows Sample.enriched !! 1%nat = Some e ∧
  at_ e "parcelle_id" = Str "P002" ∧
  at_ e "rendement" = NaN.
Proof.
  intros y e.
  assert (at_ y "rendement_final" = NaN) as Hf by (vm_compute; reflexivity).
  assert (at_ y "rendement_estime" = Num 5) as He by (vm_compute; reflexivity).
  assert (at_ y "rendement" = NaN) as Hr by (vm_compute; reflexivity).
  split; [apply row_of_lookup; vm_compute; lia|].
  do 3 (split; [done|]). split.
  - unfold rendement_resolved. rewrite Hr, Hf, He. simpl. discriminate.
  - split; [apply row_of_lookup; vm_compute; lia|].
    split; vm_compute; reflexivity.
Qed.

(** The fusion of [analyze_yield_factors] joins on equal dates: the
    monitoring row of P001, dated 2024-01-19, has no weather record of
    that day and is not in the fused table, although records nine and
    eighteen days earlier exist. *)
Lemma combined_data_needs_same_day :
  ∃ combined, combined_data Sample.loaded "P001" = Ok combined ∧
              rows combined = [].
Proof.
  assert (Sample.no_rows (combined_data Sample.loaded "P001") = true) as Hno
    by (vm_compute; reflexivity).
  destruct (combined_data Sample.loaded "P001") as [df|e]; [|discriminate].
  exists df. split; [done|]. simpl in Hno. by destruct (rows df).
Qed.

(** C2 asks that every monitoring row be joined to the weather record
    nearest in date. In [prepare_features] the join goes by row position
    instead: the first monitoring row of the sample is dated 2024-01-10
    (day 19732) and a weather record of the same day exists, yet the row
    is joined to the first weather record, of 2024-01-01 (day 19723). *)
Theorem prepare_features_joins_by_position :
  let e := Sample.row_of Sample.features 0 in
  let w := Sample.row_of (weather_data Sample.loaded) 1 in
  prepare_features Sample.loaded = Ok Sample.features ∧
  rows Sample.features !! 0%nat = Some e ∧
  at_ e "date_x" = Date 19732 ∧
  at_ e "date_y" = Date 19723 ∧
  at_ e "temperature" = Num 5 ∧
  rows (weather_data Sample.loaded) !! 1%nat = Some w ∧
  at_ w "date" = Date 19732 ∧
  ¬ joined_to_nearest_date (weather_data Sample.loaded) Sample.features.
Proof.
  intros e w.
  assert (rows Sample.features !! 0%nat = Some e) as He
    by (apply row_of_lookup; vm_compute; lia).
  assert (rows (weather_data Sample.loaded) !! 1%nat = Some w) as Hw
    by (apply row_of_lookup; vm_compute; lia).
  assert (at_ e "date_x" = Date 19732) as Hx by (vm_compute; reflexivity).
  assert (at_ e "date_y" = Date 19723) as Hy by (vm_compute; reflexivity).
  assert (at_ w "date" = Date 19732) as Hz by (vm_compute; reflexivity).
  split; [exact sample_features|]. do 3 (split; [done|]).
  split; [vm_compute; reflexivity|]. do 2 (split; [done|]).
  intros Hnear.
  specialize (Hnear e w _ _ _ (list_elem_of_lookup_2 _ _ _ He)
                (list_elem_of_lookup_2 _ _ _ Hw) Hx Hy Hz).
  lia.
Qed.

End Fusion.

(** * Further properties *)

(** ** Outcomes of a traversal *)

Lemma mapM_Raise {A B} (f : A → result B) (l : list A) e :
  mapM f l = Raise e → ∃ x, x ∈ l ∧ f x = Raise e.
Proof.
  induction l as [|x l IH]; simpl; [discriminate|].
  destruct (f x) as [y|e'] eqn:Hx; simpl.
  - destruct (mapM f l) as [k|e'] eqn:Hl; simpl; [discriminate|].
    intros [= ->]. destruct IH as (x' & Hin & Hx'); [done|].
    exists x'. split; [by right | done].
  - intros [= ->]. exists x. split; [by left | done].
Qed.

Lemma mapM_total {A B} (f : A → result B) (l : list A) :
  Forall (λ x, ∃ y, f x = Ok y) l → ∃ k, mapM f l = Ok k.
Proof.
  induction 1 as [|x l [y Hy] _ [k Hk]]; [by exists []|].
  exists (y :: k). simpl. by rewrite Hy, Hk.
Qed.

(** ** Trend and stability of a yield series *)

Section Trend.
Import Pandas Numpy AgriculturalAnalyzer.
Local Open Scope R_scope.

Lemma Rsum_cons x (l : list R) : Rsum (x :: l) = x + Rsum l.
Proof. reflexivity. Qed.

Lemma Rsum_affine a b (xs : list R) :
  Rsum ((λ x, a * x + b) <$> xs) = a * Rsum xs + b * INR (length xs).
Proof.
  induction xs as [|x xs IH]; [simpl; lra|].
  rewrite fmap_cons. change (length (x :: xs)) with (S (length xs)).
  rewrite S_INR, Rsum_cons, IH, Rsum_cons. lra.
Qed.

Lemma mean_affine a b (xs : list R) :
  xs ≠ [] → mean ((λ x, a * x + b) <$> xs) = a * mean xs + b.
Proof.
  intros Hne. unfold mean. rewrite Rsum_affine, length_fmap.
  assert (INR (length xs) ≠ 0) by (apply not_0_INR; by destruct xs).
  by field.
Qed.

Lemma Rsum_scale a (f : R → R) (xs : list R) :
  Rsum ((λ x, a * f x) <$> xs) = a * Rsum (f <$> xs).
Proof.
  induction xs as [|x xs IH]; [unfold Rsum; simpl; lra|].
  rewrite !fmap_cons, !Rsum_cons, IH. lra.
Qed.

Lemma Rsum_squares_nonneg m (xs : list R) :
  0 <= Rsum ((λ x, (x - m) * (x - m)) <$> xs).
Proof.
  induction xs as [|x xs IH]; [unfold Rsum; simpl; lra|].
  rewrite fmap_cons, Rsum_cons. cbv beta.
  pose proof (Rle_0_sqr (x - m)) as Hsq. unfold Rsqr in Hsq. lra.
Qed.

(** The squared deviations of a list add up to more than zero as soon as
    one element is off the centre. *)
Lemma Rsum_squares_pos m (xs : list R) x :
  x ∈ xs → x ≠ m → 0 < Rsum ((λ x, (x - m) * (x - m)) <$> xs).
Proof.
  induction xs as [|y xs IH]; [by intros ?%elem_of_nil|].
  intros Hin Hx. rewrite fmap_cons.
  pose proof (Rsum_squares_nonneg m xs) as Hnn.
  rewrite Rsum_cons. cbv beta.
  apply elem_of_cons in Hin as [<-|Hin].
  - assert (0 < (x - m) * (x - m)) by (apply Rsqr_pos_lt; lra). lra.
  - specialize (IH Hin Hx).
    pose proof (Rle_0_sqr (y - m)) as Hsq. unfold Rsqr in Hsq. lra.
Qed.

Lemma zip_with_fmap_same {A B C} (f : A → B → C) (g : A → B) (l : list A) :
  zip_with f l (g <$> l) = (λ x, f x (g x)) <$> l.
Proof. induction l as [|x l IH]; [done|]. simpl. f_equal. exact IH. Qed.

Lemma polyfit_exact a b (xs : list R) x1 x2 :
  x1 ∈ xs → x2 ∈ xs → x1 ≠ x2 →
  polyfit xs ((λ x, a * x + b) <$> xs) = (a, b).
Proof.
  intros H1 H2 Hne.
  assert (xs ≠ []) as Hxs by (intros ->; by apply elem_of_nil in H1).
  assert (0 < Rsum ((λ x, (x - mean xs) * (x - mean xs)) <$> xs)) as Hpos.
  { destruct (decide (x1 = mean xs)) as [E|E].
    - apply (Rsum_squares_pos _ _ x2); [done|]. congruence.
    - by apply (Rsum_squares_pos _ _ x1). }
  unfold polyfit. rewrite mean_affine by done.
  rewrite zip_with_fmap_same.
  assert (((λ x, (x - mean xs) * (a * x + b - (a * mean xs + b))) <$> xs)
          = ((λ x, a * ((x - mean xs) * (x - mean xs))) <$> xs)) as ->.
  { apply list_fmap_ext. intros _ x _. simpl. lra. }
  rewrite (Rsum_scale a (λ x, (x - mean xs) * (x - mean xs))).
  set (S := Rsum _) in *.
  assert (a * S / S = a) as -> by (field; lra).
  f_equal. lra.
Qed.




Lemma Rsum_replicate n c : Rsum (replicate n c) = INR n * c.
Proof.
  induction n as [|n IH]; [simpl; unfold Rsum; simpl; lra|].
  change (replicate (S n) c) with (c :: replicate n c).
  rewrite Rsum_cons, IH, S_INR. lra.
Qed.

Lemma mean_replicate n c : n ≠ 0%nat → mean (replicate n c) = c.
Proof.
  intros Hn. unfold mean. rewrite Rsum_replicate, length_replicate.
  field. by apply not_0_INR.
Qed.

Lemma std_replicate n c : n ≠ 0%nat → std (replicate n c) = 0.
Proof.
  intros Hn. unfold std, var. rewrite mean_replicate by done.
  rewrite fmap_replicate, mean_replicate by done.
  replace ((c - c) * (c - c)) with 0 by lra. apply sqrt_0.
Qed.

(** X1. On yields that lie exactly on a line, rendement = a * annee + b,
    recorded over at least two different years, the performance trend is
    that line: the coefficients returned are (a, b) and the fitted value
    of every year is the recorded yield. *)
Theorem performance_trend_exact a b (annee : list R) y1 y2 :
  y1 ∈ annee → y2 ∈ annee → y1 ≠ y2 →
  let rendement := (λ x, a * x + b) <$> annee in
  _analyze_performance_trend annee rendement = (a, b) ∧
  ∀ i x, annee !! i = Some x →
    rendement !! i
    = Some ((_analyze_performance_trend annee rendement).1 * x
            + (_analyze_performance_trend annee rendement).2).
Proof.
  intros H1 H2 Hne rendement.
  assert (_analyze_performance_trend annee rendement = (a, b)) as Hfit.
  { unfold _analyze_performance_trend, rendement.
    exact (polyfit_exact a b annee y1 y2 H1 H2 Hne). }
  split; [exact Hfit|].
  intros i x Hx. rewrite Hfit. unfold rendement.
  by rewrite list_lookup_fmap, Hx.
Qed.

Lemma performance_trend_exact_witness :
  let annee := [2021; 2022; 2023] in
  let rendement := (λ x, 0.5 * x + 3) <$> annee in
  _analyze_performance_trend annee rendement = (0.5, 3) ∧
  ∀ i x, annee !! i = Some x →
    rendement !! i
    = Some ((_analyze_performance_trend annee rendement).1 * x
            + (_analyze_performance_trend annee rendement).2).
Proof.
  apply (performance_trend_exact 0.5 3 [2021; 2022; 2023] 2021 2022).
  - by left.
  - by right; left.
  - lra.
Defined.







Lemma var_nonneg (ys : list R) : 0 <= var ys.
Proof.
  unfold var, mean. rewrite length_fmap.
  pose proof (Rsum_squares_nonneg (Rsum ys / INR (length ys)) ys) as Hs.
  destruct ys as [|y ys]; [simpl; unfold Rdiv; rewrite Rinv_0; lra|].
  apply Rmult_le_pos; [exact Hs|]. left. apply Rinv_0_lt_compat.
  apply lt_0_INR. simpl. lia.
Qed.








End Trend.

(** ** Limiting factors and breakpoints *)

Section Limiting.
Import Pandas Numpy AgriculturalAnalyzer Notions.
Local Open Scope R_scope.

Let kept (a : cell) : cell :=
  match a with
  | Num x => if decide (x < 0.2) then Num x else NaN
  | _ => NaN
  end.

Lemma below_threshold_Ok a v : below_threshold a = Ok v → v = kept a.
Proof. destruct a; simpl; try discriminate; by intros [= <-]. Qed.

Lemma below_threshold_total a :
  float_or_missing a → below_threshold a = Ok (kept a).
Proof. by destruct a. Qed.

Lemma limiting_cells (r : gmap string cell) cols cells :
  mapM (λ c, v ← below_threshold (at_ r c); Ok (c, v)) cols = Ok cells →
  cells = (λ c, (c, kept (at_ r c))) <$> cols.
Proof.
  revert cells. induction cols as [|c cols IH]; intros cells; simpl.
  - by intros [= <-].
  - intros H. apply bind_Ok in H as (p & Hp & H).
    apply bind_Ok in Hp as (v & Hv & [= <-]).
    apply bind_Ok in H as (rest & Hrest & [= <-]).
    apply below_threshold_Ok in Hv as ->. f_equal. by apply IH.
Qed.

Lemma at_list_to_map (f : string → cell) cols c :
  c ∈ cols → at_ (list_to_map ((λ c, (c, f c)) <$> cols)) c = f c.
Proof.
  intros Hc. unfold at_.
  rewrite <- (app_nil_r (_ <$> cols)).
  rewrite (list_to_map_header_hit (λ c, c) f cols [] c (f c)); [done| |].
  - by exists c.
  - by intros ? _ ->.
Qed.

(** X6. On a correlation table that holds only floats and missing values
    the limiting factors are returned, as a table of the same columns and
    the same number of rows: a correlation below 0.2 is kept as it is, a
    strongly negative one included; a correlation of 0.2 or more and a
    missing one come out missing. *)
Theorem limiting_factors_below_threshold correlations :
  Forall (λ r, Forall (λ c, float_or_missing (at_ r c)) (columns correlations))
         (rows correlations) →
  ∃ limiting,
    _identify_limiting_factors correlations = Ok limiting ∧
    columns limiting = columns correlations ∧
    length (rows limiting) = length (rows correlations) ∧
    ∀ i r c, rows correlations !! i = Some r → c ∈ columns correlations →
      ∃ r', rows limiting !! i = Some r' ∧
            at_ r' c = match at_ r c with
                       | Num x => if decide (x < 0.2) then Num x else NaN
                       | _ => NaN
                       end.
Proof.
  intros Hnum. unfold _identify_limiting_factors.
  destruct (mapM_total
              (λ r, cells ← mapM (λ c, v ← below_threshold (at_ r c); Ok (c, v))
                                 (columns correlations);
                    Ok (list_to_map cells : gmap string cell))
              (rows correlations)) as [limiting Hlim].
  { eapply Forall_impl; [exact Hnum|]. intros r Hr. simpl in Hr.
    destruct (mapM_total (λ c, v ← below_threshold (at_ r c); Ok (c, v))
                (columns correlations)) as [cells Hcells].
    - eapply Forall_impl; [exact Hr|]. intros c Hc. simpl in Hc.
      exists (c, kept (at_ r c)). by rewrite below_threshold_total.
    - eexists. by rewrite Hcells. }
  rewrite Hlim. eexists. split; [done|]. simpl. split; [done|]. split.
  - by eapply mapM_Ok_length.
  - intros i r c Hr Hc.
    destruct (mapM_Ok_lookup _ _ _ _ _ Hlim Hr) as (r' & Hr' & Hrow).
    exists r'. split; [done|]. apply bind_Ok in Hrow as (cells & Hcells & [= <-]).
    apply limiting_cells in Hcells as ->. by rewrite at_list_to_map.
Qed.

Lemma limiting_factors_below_threshold_witness :
  ∃ limiting,
    _identify_limiting_factors Examples.correlations = Ok limiting ∧
    columns limiting = columns Examples.correlations ∧
    length (rows limiting) = length (rows Examples.correlations) ∧
    ∀ i r c, rows Examples.correlations !! i = Some r → c ∈ columns Examples.correlations →
      ∃ r', rows limiting !! i = Some r' ∧
            at_ r' c = match at_ r c with
                       | Num x => if decide (x < 0.2) then Num x else NaN
                       | _ => NaN
                       end.
Proof.
  apply (limiting_factors_below_threshold Examples.correlations).
  apply (bool_decide_unpack _). vm_compute. exact I.
Defined.

End Limiting.

Section BreakpointRange.
Import Pandas Numpy AgriculturalAnalyzer.
Local Open Scope R_scope.

Lemma StronglySorted_filter_seq (P : nat → Prop) `{∀ i, Decision (P i)} a n :
  StronglySorted lt (filter P (seq a n)).
Proof.
  revert a. induction n as [|n IH]; intros a; [constructor|].
  simpl. destruct (decide (P a)).
  - rewrite filter_cons_True by done. constructor; [apply IH|].
    apply Forall_forall. intros i [_ Hi%elem_of_seq]%list_elem_of_filter. lia.
  - rewrite filter_cons_False by done. apply IH.
Qed.

(** X7. The breakpoint detector never flags the first position nor the
    last one, whatever the jump there; it lists the flagged positions in
    increasing order, each once; a series of fewer than three yields has
    no breakpoint. *)
Theorem breakpoints_never_at_the_ends (yield_series : list R) :
  (∀ i, i ∈ _detect_yield_breakpoints yield_series →
        (1 ≤ i ∧ i + 2 ≤ length yield_series)%nat) ∧
  StronglySorted lt (_detect_yield_breakpoints yield_series) ∧
  ((length yield_series < 3)%nat → _detect_yield_breakpoints yield_series = []).
Proof.
  unfold _detect_yield_breakpoints. split; [|split].
  - intros i [_ Hi%elem_of_seq]%list_elem_of_filter. lia.
  - apply StronglySorted_filter_seq.
  - intros Hlen.
    replace (length yield_series - 2)%nat with 0%nat by lia. done.
Qed.

(** X8. A series whose yield never changes has no breakpoint, whatever
    its length. *)
Theorem flat_series_has_no_breakpoint n c :
  _detect_yield_breakpoints (replicate n c) = [].
Proof.
  unfold _detect_yield_breakpoints. apply filter_none.
  intros i Hi%elem_of_seq. rewrite length_replicate in Hi.
  rewrite !lookup_total_replicate_2 by lia.
  rewrite std_replicate by lia.
  replace (c - c) with 0 by lra. rewrite Rabs_R0. lra.
Qed.

End BreakpointRange.

(** ** Loading *)

Section Loading.
Import Pandas Mut AgriculturalDataManager Notions.
Local Open Scope R_scope.

Lemma require_True c df : c ∈ columns df → require c df = Ok ().
Proof. intros H. unfold require. by rewrite decide_True. Qed.

Lemma require_False c df : c ∉ columns df → require c df = Raise (KeyError c).
Proof. intros H. unfold require. by rewrite decide_False. Qed.

Lemma getitem_True c df :
  c ∈ columns df → getitem c df = Ok ((λ r, at_ r c) <$> rows df).
Proof. intros H. unfold getitem. by rewrite require_True. Qed.

Lemma getitem_False c df : c ∉ columns df → getitem c df = Raise (KeyError c).
Proof. intros H. unfold getitem. by rewrite require_False. Qed.

Lemma elem_of_setitem_columns c c' s df :
  c' ∈ columns (setitem c s df) ↔ c' ∈ columns df ∨ c' = c.
Proof.
  unfold setitem. simpl. case_decide as Hc.
  - split; [by left|]. by intros [?| ->].
  - rewrite elem_of_app, list_elem_of_singleton. tauto.
Qed.

Lemma length_setitem c s df : length (rows (setitem c s df)) = length (rows df).
Proof. unfold setitem. simpl. by rewrite length_imap. Qed.

Lemma dt_year_Ok s annee :
  dt_year s = Ok annee →
  Forall (λ a, date_or_missing a) s ∧
  ∀ i d, s !! i = Some (Date d) → annee !! i = Some (Num (IZR (year_of_days d))).
Proof.
  intros H. split.
  - apply mapM_Ok in H. apply Forall_forall. intros a Ha.
    apply list_elem_of_lookup in Ha as [i Hi].
    destruct (Forall2_lookup_l _ _ _ _ _ H Hi) as (y & _ & Hy).
    by destruct a.
  - intros i d Hd. destruct (mapM_Ok_lookup _ _ _ _ _ H Hd) as (y & -> & Hy).
    simpl in Hy. by injection Hy as <-.
Qed.




Lemma to_numeric_coerce_float f s :
  Forall (λ a, float_or_missing a) (to_numeric_coerce f s).
Proof.
  unfold to_numeric_coerce. rewrite Forall_fmap. apply Forall_forall.
  intros a _. destruct a; simpl; try done. by destruct (f s0).
Qed.

(** X10. A successful [load_data] keeps the monitoring, weather and soil
    tables as read; the yield history keeps its records, in order, gains
    the columns annee and rendement and no other, and keeps every cell of
    its other columns; annee is the civil year of the record's date, and
    rendement is a float or missing, never text. *)
Theorem load_data_adds_two_columns f monitoring weather soil yields self :
  load_data f monitoring weather soil yields = Ok self →
  monitoring_data self = monitoring ∧ weather_data self = weather ∧
  soil_data self = soil ∧
  length (rows (yield_history self)) = length (rows yields) ∧
  (∀ c, c ∈ columns (yield_history self) ↔
        c ∈ columns yields ∨ c = "annee" ∨ c = "rendement") ∧
  ∀ i r, rows yields !! i = Some r →
    ∃ r', rows (yield_history self) !! i = Some r' ∧
          (∀ c, c ≠ "annee" → c ≠ "rendement" → r' !! c = r !! c) ∧
          (∀ d, at_ r "date" = Date d →
                at_ r' "annee" = Num (IZR (year_of_days d))) ∧
          float_or_missing (at_ r' "rendement").
Proof.
  unfold load_data. intros H.
  apply bind_Ok in H as (dates & Hdates & H).
  apply bind_Ok in H as (annee & Hannee & H).
  apply bind_Ok in H as (final & Hfinal & H). injection H as <-.
  cbn [monitoring_data weather_data soil_data yield_history].
  do 3 (split; [done|]). split; [by rewrite !length_setitem|]. split.
  - intros c. rewrite !elem_of_setitem_columns. tauto.
  - intros i r Hr. rewrite !setitem_rows_lookup, Hr. simpl.
    eexists. split; [done|]. split; [|split].
    + intros c H1 H2. by rewrite !lookup_insert_ne.
    + intros d Hd. rewrite at_insert_ne, at_insert by done.
      pose proof (getitem_lookup _ _ _ _ _ Hdates Hr) as Hi. rewrite Hd in Hi.
      apply dt_year_Ok in Hannee as [_ Hy]. by rewrite (Hy _ _ Hi).
    + rewrite at_insert.
      pose proof (to_numeric_coerce_float f final) as Hall.
      destruct (to_numeric_coerce f final !! i) as [a|] eqn:Ha; [|done].
      simpl. eapply Forall_lookup_1 in Hall; [exact Hall | exact Ha].
Qed.

Lemma load_data_adds_two_columns_witness :
  monitoring_data Sample.loaded = Sample.monitoring ∧
  weather_data Sample.loaded = Sample.weather ∧
  soil_data Sample.loaded = Sample.soil ∧
  length (rows (yield_history Sample.loaded)) = length (rows Sample.yields) ∧
  (∀ c, c ∈ columns (yield_history Sample.loaded) ↔
        c ∈ columns Sample.yields ∨ c = "annee" ∨ c = "rendement") ∧
  ∀ i r, rows Sample.yields !! i = Some r →
    ∃ r', rows (yield_history Sample.loaded) !! i = Some r' ∧
          (∀ c, c ≠ "annee" → c ≠ "rendement" → r' !! c = r !! c) ∧
          (∀ d, at_ r "date" = Date d →
                at_ r' "annee" = Num (IZR (year_of_days d))) ∧
          float_or_missing (at_ r' "rendement").
Proof.
  exact (load_data_adds_two_columns (λ _, None) Sample.monitoring Sample.weather
           Sample.soil Sample.yields Sample.loaded sample_loading).
Defined.

End Loading.

(** ** Fusion of the observations *)

Section Features.
Import Pandas Mut AgriculturalDataManager Notions.



Lemma length_joined_rows_Left on l r a :
  length (joined_rows Left on l r a) = length (matching on r a) `max` 1.
Proof.
  unfold joined_rows. destruct (matching on r a) as [|b bs]; [done|].
  rewrite length_fmap. simpl. lia.
Qed.




Lemma prepare_features_Ok self data :
  prepare_features self = Ok data →
  ∃ fused,
    merge Left ["parcelle_id"]
      (merge_asof_index_nearest (monitoring_data self) (weather_data self))
      (soil_data self) = Ok fused ∧
    data = if decide (0 < count_missing fused) then ffill fused else fused.
Proof.
  unfold prepare_features. intros H.
  apply bind_Ok in H as (fused & Hfused & [= <-]). by exists fused.
Qed.



Lemma count_missing_0 df r c :
  count_missing df = 0 → r ∈ rows df → c ∈ columns df → at_ r c ≠ NaN.
Proof.
  unfold count_missing. intros H0 Hr Hc Hnan.
  assert (∀ l : list nat, sum_list l = 0 → ∀ n, n ∈ l → n = 0) as Hsum.
  { induction l as [|k l IH]; simpl; intros Hl n Hn.
    - by apply elem_of_nil in Hn.
    - apply elem_of_cons in Hn as [->|Hn]; [lia|]. apply IH; [lia | done]. }
  assert (length (filter (λ c, isnull (at_ r c)) (columns df)) = 0) as Hlen.
  { apply (Hsum _ H0). apply list_elem_of_fmap. by exists r. }
  assert (c ∈ filter (λ c, isnull (at_ r c)) (columns df)) as Hin.
  { apply list_elem_of_filter. split; [|done]. by rewrite Hnan. }
  destruct (filter _ _); [by apply elem_of_nil in Hin | discriminate].
Qed.

(** The cell a forward fill leaves in a row. *)
Lemma at_filled cols (seen r : gmap string cell) c :
  c ∈ cols →
  at_ (list_to_map ((λ c, (c, if isnull (at_ r c) then at_ seen c else at_ r c))
                      <$> cols) ∪ r) c
  = if isnull (at_ r c) then at_ seen c else at_ r c.
Proof.
  intros Hc. unfold at_ at 1.
  erewrite lookup_union_Some_l; [done|].
  rewrite <- (app_nil_r (_ <$> cols)).
  apply (list_to_map_header_hit (λ c, c)
           (λ c, if isnull (at_ r c) then at_ seen c else at_ r c)).
  - by exists c.
  - by intros ? _ ->.
Qed.

Lemma ffill_from_gap cols seen rs i r c :
  c ∈ cols →
  ffill_from cols seen rs !! i = Some r → at_ r c = NaN →
  at_ seen c = NaN ∧
  ∀ j r', j < i → ffill_from cols seen rs !! j = Some r' → at_ r' c = NaN.
Proof.
  intros Hc. revert seen i. induction rs as [|r0 rs IH]; intros seen i; [done|].
  simpl. set (filled := _ ∪ r0).
  assert (at_ filled c = NaN → at_ seen c = NaN) as Hseen.
  { unfold filled. rewrite at_filled by done.
    destruct (at_ r0 c); simpl; done. }
  destruct i as [|i]; simpl.
  - intros [= <-] Hnan. split; [by apply Hseen|]. intros j r' Hj. lia.
  - intros Hr Hnan. destruct (IH _ _ Hr Hnan) as [Hfilled Habove].
    split; [by apply Hseen|].
    intros [|j] r' Hj; simpl.
    + by intros [= <-].
    + apply Habove. lia.
Qed.

(** X12. The table [prepare_features] returns has no gap below a value:
    a cell of one of its columns is missing only if every cell above it
    in that column is missing too. *)
Theorem prepare_features_has_no_gap_below_a_value self data i r c :
  prepare_features self = Ok data →
  rows data !! i = Some r → c ∈ columns data → at_ r c = NaN →
  ∀ j r', j < i → rows data !! j = Some r' → at_ r' c = NaN.
Proof.
  intros H Hr Hc Hnan.
  apply prepare_features_Ok in H as (fused & _ & ->).
  case_decide as Hmissing.
  - unfold ffill in Hr, Hc |- *. simpl in Hr, Hc |- *.
    by destruct (ffill_from_gap _ _ _ _ _ _ Hc Hr Hnan).
  - exfalso. apply (count_missing_0 fused r c); [lia | | done..].
    by eapply list_elem_of_lookup_2.
Qed.

Lemma examples_fused : prepare_features Examples.unmapped = Ok Examples.fused.
Proof.
  assert (Sample.is_ok (prepare_features Examples.unmapped) = true) as Hok
    by (vm_compute; reflexivity).
  unfold Examples.fused. by destruct (prepare_features Examples.unmapped).
Qed.

(** The first two rows of the example have no capacity: nothing above
    them had one. *)
Lemma prepare_features_has_no_gap_below_a_value_witness :
  at_ (Sample.row_of Examples.fused 0) "capacite_retention_eau" = NaN.
Proof.
  refine (prepare_features_has_no_gap_below_a_value Examples.unmapped
            Examples.fused 1 (Sample.row_of Examples.fused 1)
            "capacite_retention_eau" examples_fused _ _ _
            0 (Sample.row_of Examples.fused 0) _ _).
  - apply row_of_lookup. vm_compute. lia.
  - apply (bool_decide_unpack _). vm_compute. exact I.
  - vm_compute. reflexivity.
  - lia.
  - apply row_of_lookup. vm_compute. lia.
Defined.

End Features.

(** ** Enrichment, again *)

Section EnrichAgain.
Import Pandas Mut AgriculturalDataManager Notions.

Lemma enrich_Ok self data enriched :
  _enrich_with_yield_history self data = Ok enriched →
  ∃ history merged moyen,
    select ["parcelle_id"; "annee"; "rendement"] (yield_history self) = Ok history ∧
    merge Left ["parcelle_id"] data history = Ok merged ∧
    groupby_transform_mean "parcelle_id" "rendement" merged = Ok moyen ∧
    enriched = setitem "rendement_moyen" moyen merged.
Proof.
  unfold _enrich_with_yield_history. intros H.
  apply bind_Ok in H as (history & Hh & H).
  apply bind_Ok in H as (merged & Hm & H).
  apply bind_Ok in H as (moyen & Hg & [= <-]).
  by exists history, merged, moyen.
Qed.

Lemma mapM_require cs df :
  (∀ c, c ∈ cs → c ∈ columns df) → ∃ us, mapM (λ c, require c df) cs = Ok us.
Proof.
  intros H. apply mapM_total, Forall_forall. intros c Hc.
  exists (). by apply require_True, H.
Qed.

Lemma merge_total h on l r :
  (∀ c, c ∈ on → c ∈ columns l) → (∀ c, c ∈ on → c ∈ columns r) →
  merge h on l r = Ok {| columns := merged_columns on l r;
                         rows := rows l ≫= joined_rows h on l r |}.
Proof.
  intros Hl Hr. unfold merge.
  destruct (mapM_require on l Hl) as [? ->].
  by destruct (mapM_require on r Hr) as [? ->].
Qed.

Lemma merged_columns_key on l r c :
  c ∈ on → c ∈ columns l → c ∈ merged_columns on l r.
Proof.
  intros Hon Hl. unfold merged_columns. apply elem_of_app. left.
  apply list_elem_of_fmap. exists c. split; [|done].
  unfold suffixed. rewrite decide_False; [done|].
  rewrite overlapping_spec. tauto.
Qed.

(** X13. A table that has been enriched with the yield history cannot
    be enriched again: its rendement column and the history's are both
    renamed by the join, and the grouping on rendement raises KeyError. *)
Theorem enrichment_cannot_be_repeated self data enriched :
  _enrich_with_yield_history self data = Ok enriched →
  _enrich_with_yield_history self enriched = Raise (KeyError "rendement").
Proof.
  intros H.
  apply enrich_Ok in H as (history & merged & moyen & Hsel & Hmerge & Hgroup & ->).
  destruct (select_Ok _ _ _ Hsel) as [Hcols _].
  unfold groupby_transform_mean in Hgroup.
  apply bind_Ok in Hgroup as (? & Hpid%require_Ok & Hgroup).
  apply bind_Ok in Hgroup as (? & Hrend%require_Ok & _).
  set (enriched := setitem "rendement_moyen" moyen merged).
  assert ("parcelle_id" ∈ columns enriched) as Hpid'
    by (apply elem_of_setitem_columns; by left).
  assert ("rendement" ∈ columns enriched) as Hrend'
    by (apply elem_of_setitem_columns; by left).
  unfold _enrich_with_yield_history. rewrite Hsel. simpl.
  rewrite merge_total.
  - simpl. unfold groupby_transform_mean.
    rewrite (require_True "parcelle_id")
      by (apply merged_columns_key; [by left | done]).
    simpl. rewrite (require_False "rendement"); [done|].
    cbn [columns]. intros Hin.
    by apply (rendement_from_history enriched history Hcols Hin).
  - by intros c ->%list_elem_of_singleton.
  - intros c ->%list_elem_of_singleton. rewrite Hcols. by left.
Qed.

Lemma enrichment_cannot_be_repeated_witness :
  _enrich_with_yield_history Sample.loaded Sample.enriched
  = Raise (KeyError "rendement").
Proof.
  exact (enrichment_cannot_be_repeated Sample.loaded Sample.features
           Sample.enriched sample_enrichment).
Defined.

Lemma length_bind_sum {A B} (f : A → list B) (l : list A) :
  length (l ≫= f) = sum_list ((λ x, length (f x)) <$> l).
Proof.
  induction l as [|x l IH]; [done|].
  rewrite bind_cons, length_app, IH. done.
Qed.

(** X14. The enriched table has one row for every pair of an observation
    and a yield record of its parcel, and one row for every observation
    of a parcel without yield record. *)
Theorem enrichment_row_count self data enriched :
  _enrich_with_yield_history self data = Ok enriched →
  length (rows enriched)
  = sum_list ((λ a, length (filter (λ y, at_ y "parcelle_id" = at_ a "parcelle_id")
                                   (rows (yield_history self))) `max` 1)
              <$> rows data).
Proof.
  intros H.
  apply enrich_Ok in H as (history & merged & moyen & Hsel & Hmerge & _ & ->).
  destruct (select_Ok _ _ _ Hsel) as [_ Hrows].
  apply merge_Ok in Hmerge as (_ & _ & Hmerged).
  rewrite length_setitem, Hmerged, length_bind_sum. f_equal.
  apply list_fmap_ext. intros _ a _.
  rewrite length_joined_rows_Left, matching_parcelle. f_equal.
  rewrite Hrows, filter_fmap, length_fmap. done.
Qed.

Lemma enrichment_row_count_witness :
  length (rows Sample.enriched)
  = sum_list ((λ a, length (filter (λ y, at_ y "parcelle_id" = at_ a "parcelle_id")
                                   (rows (yield_history Sample.loaded))) `max` 1)
              <$> rows Sample.features).
Proof.
  exact (enrichment_row_count Sample.loaded Sample.features Sample.enriched
           sample_enrichment).
Defined.

End EnrichAgain.

(** ** Risk scoring: outcomes *)

Lemma mapM_total_with {A B} (f : A → result B) (Q : B → Prop) (l : list A) :
  Forall (λ x, ∃ y, f x = Ok y ∧ Q y) l →
  ∃ k, mapM f l = Ok k ∧ length k = length l ∧ Forall Q k.
Proof.
  induction 1 as [|x l (y & Hy & HQ) _ (k & Hk & Hlen & HQk)].
  - exists []. by repeat split.
  - exists (y :: k). simpl. rewrite Hy, Hk. simpl.
    repeat split; [by rewrite Hlen | by constructor].
Qed.

Ltac in_columns := repeat first [by left | right].

Section Scoring.
Import Pandas Mut AgriculturalDataManager Notions.
Local Open Scope R_scope.

Abbreviation floats_only := (Forall (λ a : cell, float_or_missing a)).

Lemma lift1_total f a :
  float_or_missing a → ∃ b, lift1 f a = Ok b ∧ float_or_missing b.
Proof. destruct a; try done; by eexists. Qed.

Lemma lift2_total f a b :
  float_or_missing a → float_or_missing b →
  ∃ c, lift2 f a b = Ok c ∧ float_or_missing c.
Proof. destruct a, b; try done; by eexists. Qed.

Lemma smap_total f s :
  floats_only s → ∃ s', smap f s = Ok s' ∧ length s' = length s ∧ floats_only s'.
Proof.
  intros H. apply mapM_total_with. eapply Forall_impl; [exact H|].
  intros a Ha. by apply lift1_total.
Qed.

Lemma szip_total f s t :
  floats_only s → floats_only t → length s = length t →
  ∃ u, szip f s t = Ok u ∧ length u = length s ∧ floats_only u.
Proof.
  intros Hs Ht Hlen.
  destruct (mapM_total_with (λ p : cell * cell, lift2 f p.1 p.2)
              (λ a : cell, float_or_missing a) (zip s t)) as (u & Hu & Hl & Hf).
  - apply Forall_forall. intros [a b] Hab.
    apply elem_of_zip_l in Hab as Ha. apply elem_of_zip_r in Hab as Hb.
    apply lift2_total.
    + by eapply Forall_forall in Hs.
    + by eapply Forall_forall in Ht.
  - exists u. split; [done|]. split; [|done].
    rewrite Hl, length_zip. lia.
Qed.

Lemma sscalar_total f s v :
  floats_only s → float_or_missing v →
  ∃ u, sscalar f s v = Ok u ∧ length u = length s ∧ floats_only u.
Proof.
  intros Hs Hv. apply mapM_total_with. eapply Forall_impl; [exact Hs|].
  intros a Ha. by apply lift2_total.
Qed.

Lemma floats_total s : floats_only s → floats s = Ok (nums s).
Proof.
  intros H. unfold floats.
  destruct (mapM_total (λ a, match a with
                             | Num x => Ok (Some x)
                             | NaN => Ok None
                             | _ => Raise TypeError
                             end) s) as [k Hk].
  { eapply Forall_impl; [exact H|]. intros a Ha. destruct a; try done; by eexists. }
  assert (floats s = Ok (omap (λ o : option R, o) k)) as E
    by (unfold floats; by rewrite Hk).
  unfold floats in E. rewrite E. f_equal. by apply floats_Ok.
Qed.

Lemma smax_total s : floats_only s → ∃ v, smax s = Ok v ∧ float_or_missing v.
Proof.
  intros H. unfold smax. rewrite floats_total by done. simpl.
  eexists. split; [done|]. by destruct (nums s).
Qed.

Lemma getitem_floats c df :
  float_column c df →
  ∃ s, getitem c df = Ok s ∧ length s = length (rows df) ∧ floats_only s.
Proof.
  intros [Hc Hf]. rewrite getitem_True by done. eexists. split; [done|].
  split; [by rewrite length_fmap|]. by rewrite Forall_fmap.
Qed.

Lemma getitem_setitem_other c c' s df :
  c ≠ c' → getitem c' (setitem c s df) = getitem c' df.
Proof.
  intros Hne.
  assert (c' ∈ columns (setitem c s df) ↔ c' ∈ columns df) as Hcol.
  { rewrite elem_of_setitem_columns. split; [by intros [?|?] | by left]. }
  destruct (decide (c' ∈ columns df)) as [Hin|Hin].
  - rewrite (getitem_True c' df), (getitem_True c' (setitem c s df))
      by (done || by apply Hcol).
    f_equal. apply list_eq. intros i.
    rewrite !list_lookup_fmap, setitem_rows_lookup.
    destruct (rows df !! i) as [r|]; [|done]. simpl.
    by rewrite at_insert_ne.
  - rewrite (getitem_False c' df) by done.
    rewrite (getitem_False c' (setitem c s df)) by (by rewrite Hcol). done.
Qed.

Lemma getitem_setitem_same c s df :
  length s = length (rows df) → getitem c (setitem c s df) = Ok s.
Proof.
  intros Hlen. rewrite getitem_True by apply setitem_columns. f_equal.
  apply list_eq. intros i.
  rewrite list_lookup_fmap, setitem_rows_lookup.
  destruct (rows df !! i) as [r|] eqn:Hr; simpl.
  - rewrite at_insert.
    destruct (s !! i) as [a|] eqn:Ha; [done|].
    apply lookup_ge_None in Ha. apply lookup_lt_Some in Hr. lia.
  - symmetry. apply lookup_ge_None. apply lookup_ge_None in Hr. lia.
Qed.

Lemma action_bind_step {A B} (m : action A) (f : A → action B) df df1 a :
  m df = (df1, Ok a) → (m ≫= f) df = f a df1.
Proof. intros H. unfold mbind, action_bind. by rewrite H. Qed.

Lemma action_bind_raise {A B} (m : action A) (f : A → action B) df df1 e :
  m df = (df1, Raise e) → (m ≫= f) df = (df1, Raise e).
Proof. intros H. unfold mbind, action_bind. by rewrite H. Qed.

Lemma read_step {B} c (f : list cell → action B) df s :
  getitem c df = Ok s → (read c ≫= f) df = f s df.
Proof. intros H. apply action_bind_step. unfold read. by rewrite H. Qed.

Lemma pure_step {A B} (r : result A) (f : A → action B) df a :
  r = Ok a → (pure r ≫= f) df = f a df.
Proof. intros ->. by apply action_bind_step. Qed.

Lemma write_step {B} c s (f : unit → action B) df :
  (write c s ≫= f) df = f () (setitem c s df).
Proof. by apply action_bind_step. Qed.

Lemma select_total cs df :
  (∀ c, c ∈ cs → c ∈ columns df) →
  select cs df
  = Ok {| columns := cs;
          rows := (λ r, list_to_map ((λ c, (c, at_ r c)) <$> cs)) <$> rows df |}.
Proof.
  intros H. unfold select. by destruct (mapM_require cs df H) as [? ->].
Qed.

(** X15. On a table that has a parcelle_id column and holds floats or
    missing values in stress_hydrique, capacite_retention_eau, ndvi and
    rendement_moyen, risk scoring returns: a table of the three columns
    parcelle_id, risque_hydrique and risque_global, with one row for each
    row scored, both risks a float or missing. *)
Theorem risk_scoring_returns data :
  "parcelle_id" ∈ columns data →
  float_column "stress_hydrique" data →
  float_column "capacite_retention_eau" data →
  float_column "ndvi" data →
  float_column "rendement_moyen" data →
  ∃ out,
    (calculate_risk_metrics data).2 = Ok out ∧
    columns out = ["parcelle_id"; "risque_hydrique"; "risque_global"] ∧
    length (rows out) = length (rows data) ∧
    float_column "risque_hydrique" out ∧ float_column "risque_global" out.
Proof.
  intros Hpid Hstress Hcap Hndvi Hrm.
  destruct (getitem_floats _ _ Hstress) as (stress & Es & Ls & Fs).
  destruct (getitem_floats _ _ Hcap) as (capacite & Ec & Lc & Fc).
  destruct (getitem_floats _ _ Hndvi) as (ndvi & En & Ln & Fn).
  destruct (getitem_floats _ _ Hrm) as (rm & Em & Lm & Fm).
  destruct (smap_total (λ x, x + 1e-6) capacite Fc) as (denom & Ed & Ld & Fd).
  destruct (szip_total Rdiv stress denom Fs Fd) as (hydrique & Eh & Lh & Fh);
    [congruence|].
  destruct (smap_total (λ x, 0.5 * x) hydrique Fh) as (t1 & E1 & L1 & F1).
  destruct (smap_total (λ x, 1 - x) ndvi Fn) as (u & Eu & Lu & Fu).
  destruct (smap_total (λ x, 0.3 * x) u Fu) as (t2 & E2 & L2 & F2).
  destruct (szip_total Rplus t1 t2 F1 F2) as (t12 & E12 & L12 & F12);
    [congruence|].
  destruct (smax_total rm Fm) as (mx & Emx & Fmx).
  destruct (lift1_total (λ x, x + 1e-6) mx Fmx) as (norm & Enorm & Fnorm).
  destruct (sscalar_total Rdiv rm norm Fm Fnorm) as (q & Eq & Lq & Fq).
  destruct (smap_total (λ x, 1 - x) q Fq) as (v & Ev & Lv & Fv).
  destruct (smap_total (λ x, 0.2 * x) v Fv) as (t3 & E3 & L3 & F3).
  destruct (szip_total Rplus t12 t3 F12 F3) as (global & Eg & Lg & Fg);
    [congruence|].
  set (data1 := setitem "risque_hydrique" hydrique data).
  set (data2 := setitem "risque_global" global data1).
  assert (calculate_risk_metrics data
          = (data2, select ["parcelle_id"; "risque_hydrique"; "risque_global"] data2))
    as Hrun.
  { unfold calculate_risk_metrics.
    rewrite (read_step _ _ _ _ Es), (read_step _ _ _ _ Ec).
    rewrite (pure_step _ _ _ _ Ed), (pure_step _ _ _ _ Eh), write_step.
    fold data1.
    rewrite (read_step "risque_hydrique" _ data1 hydrique)
      by (apply getitem_setitem_same; congruence).
    rewrite (pure_step _ _ _ _ E1).
    rewrite (read_step "ndvi" _ data1 ndvi)
      by (unfold data1; by rewrite getitem_setitem_other).
    rewrite (pure_step _ _ _ _ Eu), (pure_step _ _ _ _ E2), (pure_step _ _ _ _ E12).
    rewrite !(read_step "rendement_moyen" _ data1 rm)
      by (unfold data1; by rewrite getitem_setitem_other).
    rewrite (pure_step _ _ _ _ Emx), (pure_step _ _ _ _ Enorm).
    rewrite (pure_step _ _ _ _ Eq), (pure_step _ _ _ _ Ev), (pure_step _ _ _ _ E3).
    rewrite (pure_step _ _ _ _ Eg), write_step. done. }
  rewrite Hrun. cbn [snd]. rewrite select_total.
  - eexists. split; [done|]. cbn [columns rows]. split; [done|].
    split; [unfold data2, data1; by rewrite length_fmap, !length_setitem|].
    assert (∀ r, r ∈ rows data2 →
              float_or_missing (at_ r "risque_hydrique") ∧
              float_or_missing (at_ r "risque_global")) as Hcells.
    { intros r [i Hi]%list_elem_of_lookup.
      unfold data2, data1 in Hi. rewrite !setitem_rows_lookup in Hi.
      destruct (rows data !! i) as [r0|] eqn:Hr0; [|discriminate].
      injection Hi as <-.
      rewrite at_insert_ne, !at_insert by done.
      apply lookup_lt_Some in Hr0.
      destruct (lookup_lt_is_Some_2 hydrique i) as [h Hh]; [lia|].
      destruct (lookup_lt_is_Some_2 global i) as [g Hg]; [lia|].
      rewrite Hh, Hg. simpl. split.
      - by eapply Forall_lookup_1 in Fh.
      - by eapply Forall_lookup_1 in Fg. }
    split; (split; [cbn [columns]; in_columns|]); cbn [rows];
      rewrite Forall_fmap; apply Forall_forall; intros r Hr; cbn beta;
      unfold compose; rewrite at_selected by in_columns; by apply Hcells.
  - intros c Hc. unfold data2, data1. rewrite !elem_of_setitem_columns.
    repeat (apply elem_of_cons in Hc as [->|Hc]); [tauto..|].
    by apply elem_of_nil in Hc.
Qed.

Lemma risk_scoring_returns_witness :
  ∃ out,
    (calculate_risk_metrics Sample.enriched).2 = Ok out ∧
    columns out = ["parcelle_id"; "risque_hydrique"; "risque_global"] ∧
    length (rows out) = length (rows Sample.enriched) ∧
    float_column "risque_hydrique" out ∧ float_column "risque_global" out.
Proof.
  apply (risk_scoring_returns Sample.enriched); unfold float_column;
    apply (bool_decide_unpack _); vm_compute; exact I.
Defined.

(** X16. Scoring a table that has numeric stress and capacity columns
    but no ndvi column raises KeyError on ndvi after risque_hydrique has
    been assigned: the caller's table has changed although the call
    failed. *)
Theorem risk_scoring_fails_midway data :
  float_column "stress_hydrique" data →
  float_column "capacite_retention_eau" data →
  "ndvi" ∉ columns data →
  ∃ hydrique,
    calculate_risk_metrics data
    = (setitem "risque_hydrique" hydrique data, Raise (KeyError "ndvi")) ∧
    length hydrique = length (rows data).
Proof.
  intros Hstress Hcap Hndvi.
  destruct (getitem_floats _ _ Hstress) as (stress & Es & Ls & Fs).
  destruct (getitem_floats _ _ Hcap) as (capacite & Ec & Lc & Fc).
  destruct (smap_total (λ x, x + 1e-6) capacite Fc) as (denom & Ed & Ld & Fd).
  destruct (szip_total Rdiv stress denom Fs Fd) as (hydrique & Eh & Lh & Fh);
    [congruence|].
  destruct (smap_total (λ x, 0.5 * x) hydrique Fh) as (t1 & E1 & L1 & F1).
  exists hydrique. split; [|congruence].
  unfold calculate_risk_metrics.
  rewrite (read_step _ _ _ _ Es), (read_step _ _ _ _ Ec).
  rewrite (pure_step _ _ _ _ Ed), (pure_step _ _ _ _ Eh), write_step.
  rewrite (read_step "risque_hydrique" _ _ hydrique)
    by (apply getitem_setitem_same; congruence).
  rewrite (pure_step _ _ _ _ E1).
  apply action_bind_raise. unfold read. rewrite getitem_False; [done|].
  rewrite elem_of_setitem_columns. by intros [?|?].
Qed.

Lemma risk_scoring_fails_midway_witness :
  ∃ hydrique,
    calculate_risk_metrics Examples.unscored
    = (setitem "risque_hydrique" hydrique Examples.unscored,
       Raise (KeyError "ndvi")) ∧
    length hydrique = length (rows Examples.unscored).
Proof.
  apply (risk_scoring_fails_midway Examples.unscored); unfold float_column;
    apply (bool_decide_unpack _); vm_compute; exact I.
Defined.

Ltac unroll H :=
  let a := fresh "a" in let df := fresh "df" in let Hs := fresh "Hs" in
  apply action_bind_Ok in H; destruct H as (a & df & Hs & H);
  first [ apply read_Ok in Hs; destruct Hs as [-> Hs]
        | apply pure_Ok in Hs; destruct Hs as [-> Hs]
        | apply write_Ok in Hs; subst df ].

Lemma DataFrame_eq (df1 df2 : DataFrame) :
  columns df1 = columns df2 → rows df1 = rows df2 → df1 = df2.
Proof. destruct df1, df2. simpl. by intros -> ->. Qed.

Lemma columns_setitem_present c s df :
  c ∈ columns df → columns (setitem c s df) = columns df.
Proof. intros H. unfold setitem. simpl. by rewrite decide_True. Qed.

Lemma setitem_again c s df : setitem c s (setitem c s df) = setitem c s df.
Proof.
  apply DataFrame_eq.
  - apply columns_setitem_present, setitem_columns.
  - apply list_eq. intros i. rewrite !setitem_rows_lookup.
    destruct (rows df !! i) as [r|]; [|done]. simpl.
    by rewrite insert_insert_eq.
Qed.

Lemma setitem_absorbed c c' s t df :
  c ≠ c' →
  setitem c s (setitem c' t (setitem c s df)) = setitem c' t (setitem c s df).
Proof.
  intros Hne. apply DataFrame_eq.
  - apply columns_setitem_present.
    apply elem_of_setitem_columns. left. apply setitem_columns.
  - apply list_eq. intros i. rewrite !setitem_rows_lookup.
    destruct (rows df !! i) as [r|]; [|done]. simpl. f_equal.
    rewrite (insert_insert_ne _ c c') by done.
    by rewrite insert_insert_eq.
Qed.

(** X17. Scoring a table a second time changes nothing: the call
    returns the same scores and leaves the table as the first call left
    it. *)
Theorem risk_scoring_twice data data' out :
  calculate_risk_metrics data = (data', Ok out) →
  calculate_risk_metrics data' = (data', Ok out).
Proof.
  intros H. unfold calculate_risk_metrics in H.
  do 20 unroll H. apply project_Ok in H as [-> H].
  set (data1 := setitem "risque_hydrique" a2 data) in *.
  set (data2 := setitem "risque_global" a17 data1) in *.
  assert (∀ c, c ≠ "risque_global" → getitem c data2 = getitem c data1) as Hsame2.
  { intros c Hc. unfold data2. by rewrite getitem_setitem_other. }
  assert (∀ c, c ≠ "risque_global" → c ≠ "risque_hydrique" →
               getitem c data2 = getitem c data) as Hsame.
  { intros c Hc1 Hc2. rewrite Hsame2 by done. unfold data1.
    by rewrite getitem_setitem_other. }
  unfold calculate_risk_metrics.
  rewrite (read_step "stress_hydrique" _ data2 a) by (by rewrite Hsame).
  rewrite (read_step "capacite_retention_eau" _ data2 a0) by (by rewrite Hsame).
  rewrite (pure_step _ _ _ _ Hs1), (pure_step _ _ _ _ Hs2), write_step.
  replace (setitem "risque_hydrique" a2 data2) with data2
    by (symmetry; by apply setitem_absorbed).
  rewrite (read_step "risque_hydrique" _ data2 a4) by (by rewrite Hsame2).
  rewrite (pure_step _ _ _ _ Hs5).
  rewrite (read_step "ndvi" _ data2 a6) by (by rewrite Hsame2).
  rewrite (pure_step _ _ _ _ Hs7), (pure_step _ _ _ _ Hs8), (pure_step _ _ _ _ Hs9).
  rewrite (read_step "rendement_moyen" _ data2 a10) by (by rewrite Hsame2).
  rewrite (read_step "rendement_moyen" _ data2 a11) by (by rewrite Hsame2).
  rewrite (pure_step _ _ _ _ Hs12), (pure_step _ _ _ _ Hs13).
  rewrite (pure_step _ _ _ _ Hs14), (pure_step _ _ _ _ Hs15).
  rewrite (pure_step _ _ _ _ Hs16), (pure_step _ _ _ _ Hs17), write_step.
  replace (setitem "risque_global" a17 data2) with data2
    by (symmetry; apply setitem_again).
  unfold project. by rewrite H.
Qed.

Lemma risk_scoring_twice_witness :
  calculate_risk_metrics Sample.after_scoring = (Sample.after_scoring, Ok Sample.scores).
Proof.
  exact (risk_scoring_twice Sample.enriched Sample.after_scoring Sample.scores
           sample_scoring).
Defined.

End Scoring.

(** ** Imputation and the analysis it feeds *)

Section Imputation.
Import Pandas Numpy Statsmodels AgriculturalDataManager Notions.
Local Open Scope R_scope.

Abbreviation floats_only := (Forall (λ a : cell, float_or_missing a)).

Lemma elem_of_known (a : ndarray) i y : (i, y) ∈ known a ↔ a !! i = Some (Some y).
Proof.
  unfold known. rewrite list_elem_of_omap. split.
  - intros ([k o] & Hin & Hp).
    apply elem_of_lookup_imap in Hin as (k' & o' & Heq & Hk).
    injection Heq as -> ->.
    destruct o' as [v|]; simpl in Hp; [|discriminate]. by injection Hp as -> ->.
  - intros Hi. exists (i, Some y). split; [|done].
    apply elem_of_lookup_imap. by exists i, (Some y).
Qed.

Lemma interpolate_lookup (a : ndarray) k :
  interpolate a !! k =
  (λ o, match o with
        | Some v => Some v
        | None =>
            match last (filter (λ p, p.1 ≤ k)%nat (known a)),
                  head (filter (λ p, k ≤ p.1)%nat (known a)) with
            | Some (i, y0), Some (j, y1) =>
                Some (y0 + (y1 - y0) / (INR j - INR i) * (INR k - INR i))
            | Some (_, y0), None => Some y0
            | None, Some (_, y1) => Some y1
            | None, None => None
            end
        end) <$> a !! k.
Proof. unfold interpolate. by rewrite list_lookup_imap. Qed.

(** A value on the segment between two others lies between them. *)
Lemma between_on_segment y0 y1 d t :
  0 < t < d →
  Rmin y0 y1 <= y0 + (y1 - y0) / d * t <= Rmax y0 y1.
Proof.
  intros [Ht Hd].
  assert (0 < d) as Hd0 by lra.
  assert (y0 + (y1 - y0) / d * t = y0 + (y1 - y0) * (t / d)) as -> by (field; lra).
  assert (0 < t / d < 1) as [Hs0 Hs1].
  { split.
    - apply Rdiv_lt_0_compat; lra.
    - apply (Rmult_lt_reg_r d); [done|]. unfold Rdiv.
      rewrite Rmult_assoc, Rinv_l by lra. lra. }
  set (s := t / d) in *.
  unfold Rmin, Rmax. destruct (Rle_dec y0 y1); split; nra.
Qed.

(** What interpolation puts in a gap, when the series has a known
    value: a value between two known ones. *)
Lemma interpolate_gap (a : ndarray) k i y :
  a !! i = Some (Some y) → a !! k = Some None →
  ∃ v lo hi, interpolate a !! k = Some (Some v) ∧
             Some lo ∈ a ∧ Some hi ∈ a ∧ lo <= v <= hi.
Proof.
  intros Hi Hk. rewrite interpolate_lookup, Hk. simpl.
  assert (∀ P (Hdec : ∀ p : nat * R, Decision (P p)) j z,
            (j, z) ∈ filter P (known a) →
            a !! j = Some (Some z) ∧ Some z ∈ a ∧ P (j, z) ∧ j ≠ k) as Hin.
  { intros P Hdec j z [HP Hj%elem_of_known]%list_elem_of_filter.
    repeat split; [done | by eapply list_elem_of_lookup_2 | done |].
    intros ->. congruence. }
  destruct (last (filter _ (known a))) as [[i0 y0]|] eqn:Hlast;
    destruct (head (filter _ (known a))) as [[j1 y1]|] eqn:Hhead.
  - apply last_Some_elem_of, Hin in Hlast as (_ & Hy0 & Hle & Hne).
    apply head_Some_elem_of, Hin in Hhead as (_ & Hy1 & Hge & Hne').
    simpl in Hle, Hge.
    assert (0 < INR k - INR i0 < INR j1 - INR i0) as Hseg.
    { assert (i0 < k)%nat as H1 by lia. assert (k < j1)%nat as H2 by lia.
      apply lt_INR in H1, H2. lra. }
    pose proof (between_on_segment y0 y1 _ _ Hseg) as Hbetween.
    exists (y0 + (y1 - y0) / (INR j1 - INR i0) * (INR k - INR i0)).
    unfold Rmin, Rmax in Hbetween. destruct (Rle_dec y0 y1).
    + by exists y0, y1.
    + by exists y1, y0.
  - apply last_Some_elem_of, Hin in Hlast as (_ & Hy0 & _).
    exists y0, y0, y0. repeat split; [done..|lra|lra].
  - apply head_Some_elem_of, Hin in Hhead as (_ & Hy1 & _).
    exists y1, y1, y1. repeat split; [done..|lra|lra].
  - exfalso. apply elem_of_known in Hi.
    destruct (decide (i ≤ k)%nat) as [Hle|Hgt].
    + assert ((i, y) ∈ filter (λ p, p.1 ≤ k)%nat (known a)) as Hmem
        by (by apply list_elem_of_filter).
      destruct (filter (λ p, p.1 ≤ k)%nat (known a)) as [|p l] eqn:E;
        [by apply elem_of_nil in Hmem|].
      assert (is_Some (last (p :: l))) as [? ?] by (by apply last_is_Some).
      congruence.
    + assert ((i, y) ∈ filter (λ p, k ≤ p.1)%nat (known a)) as Hmem
        by (apply list_elem_of_filter; split; [simpl; lia | done]).
      destruct (filter (λ p, k ≤ p.1)%nat (known a)) as [|p l] eqn:E;
        [by apply elem_of_nil in Hmem | discriminate].
Qed.

Lemma interpolate_nothing_known (a : ndarray) :
  (∀ y, Some y ∉ a) → interpolate a = a.
Proof.
  intros Hnone.
  assert (known a = []) as Hk.
  { destruct (known a) as [|[i y] l] eqn:E; [done|]. exfalso.
    assert ((i, y) ∈ known a) as Hin by (rewrite E; by left).
    apply elem_of_known in Hin. apply (Hnone y). by eapply list_elem_of_lookup_2. }
  apply list_eq. intros k. rewrite interpolate_lookup, Hk.
  destruct (a !! k) as [[v|]|]; done.
Qed.

Lemma of_cell_total s : floats_only s → mapM of_cell s = Ok (float_of <$> s).
Proof.
  induction 1 as [|c s Hc _ IH]; [done|].
  simpl. rewrite IH. by destruct c.
Qed.

Lemma to_cell_float o : float_or_missing (to_cell o).
Proof. by destruct o. Qed.

Lemma list_fmap_same {A} (f : A → A) (l : list A) :
  (∀ x, x ∈ l → f x = x) → f <$> l = l.
Proof.
  intros H. induction l as [|x l IH]; [done|].
  rewrite fmap_cons, H by (by left). f_equal. apply IH.
  intros y Hy. apply H. by right.
Qed.

Lemma elem_of_float_of (s : list cell) y : Some y ∈ float_of <$> s ↔ Num y ∈ s.
Proof.
  rewrite list_elem_of_fmap. split.
  - intros (c & Hc & Hin). destruct c; try discriminate. by injection Hc as ->.
  - intros Hin. by exists (Num y).
Qed.

(** What imputation makes of a series of floats and missing values. *)
Lemma imputed_lookup s :
  floats_only s →
  ∃ filled,
    imputed s = Ok filled ∧ length filled = length s ∧
    (∀ i x, s !! i = Some (Num x) → filled !! i = Some (Num x)) ∧
    (∀ i y, Num y ∈ s → s !! i = Some NaN →
       ∃ v lo hi, filled !! i = Some (Num v) ∧
                  Num lo ∈ s ∧ Num hi ∈ s ∧ lo <= v <= hi) ∧
    ((∀ y, Num y ∉ s) → filled = s).
Proof.
  intros Hs. unfold imputed. case_decide as Hmiss.
  - rewrite of_cell_total by done. cbn [mbind result_bind].
    set (a := float_of <$> s).
    set (filled := to_cell <$> interpolate a).
    assert (floats_only filled) as Hfilled.
    { unfold filled. rewrite Forall_fmap. apply Forall_forall.
      intros o _. apply to_cell_float. }
    unfold smean. rewrite floats_total by done. cbn [fmap result_fmap mbind result_bind].
    eexists. split; [done|].
    assert (∀ i c, s !! i = Some c → a !! i = Some (float_of c)) as Ha.
    { intros i c Hc. unfold a. by rewrite list_lookup_fmap, Hc. }
    split; [|split; [|split]].
    + unfold filled, interpolate, a. by rewrite !length_fmap, length_imap, length_fmap.
    + intros i x Hx. apply Ha in Hx.
      rewrite list_lookup_fmap. unfold filled.
      by rewrite list_lookup_fmap, interpolate_lookup, Hx.
    + intros i y Hy Hi. apply Ha in Hi. simpl in Hi.
      apply list_elem_of_lookup in Hy as [j Hj]. apply Ha in Hj. simpl in Hj.
      destruct (interpolate_gap a i j y Hj Hi) as (v & lo & hi & Hv & Hlo & Hhi & Hle).
      exists v, lo, hi. rewrite list_lookup_fmap. unfold filled.
      rewrite list_lookup_fmap, Hv. simpl.
      by rewrite <- !elem_of_float_of.
    + intros Hnone.
      assert (interpolate a = a) as Hsame.
      { apply interpolate_nothing_known. intros y. unfold a.
        rewrite elem_of_float_of. apply Hnone. }
      assert (filled = s) as Hfs.
      { unfold filled. rewrite Hsame. unfold a. rewrite <- list_fmap_compose.
        apply list_fmap_same. intros c Hin. simpl.
        eapply Forall_forall in Hs; [|exact Hin].
        destruct c; try done; exfalso; by eapply Hnone. }
      rewrite Hfs. apply list_fmap_same. intros c Hin.
      destruct c; try done. simpl.
      assert (nums s = []) as ->; [|done].
      destruct (nums s) as [|y l] eqn:E; [done|]. exfalso.
      apply (Hnone y). apply elem_of_nums. rewrite E. by left.
  - exists s. split; [done|]. split; [done|]. split; [done|].
    split; [|done].
    intros i y _ Hi. exfalso. apply Hmiss.
    assert (NaN ∈ filter (λ c, isnull c) s) as Hin.
    { apply list_elem_of_filter. split; [done|]. by eapply list_elem_of_lookup_2. }
    destruct (filter (λ c, isnull c) s); [by apply elem_of_nil in Hin|simpl; lia].
Qed.

(** X18. On a yield series of floats and missing values with at least
    one measured yield, imputation returns a series of the same length
    without any missing value: every measured yield is kept and every
    imputed one lies between two measured yields of the series. *)
Theorem imputation_fills_from_measured_yields rendement y :
  floats_only rendement → Num y ∈ rendement →
  ∃ filled,
    imputed rendement = Ok filled ∧ length filled = length rendement ∧
    (∀ i x, rendement !! i = Some (Num x) → filled !! i = Some (Num x)) ∧
    ∀ i, (i < length rendement)%nat →
      ∃ v lo hi, filled !! i = Some (Num v) ∧
                 Num lo ∈ rendement ∧ Num hi ∈ rendement ∧ lo <= v <= hi.
Proof.
  intros Hs Hy.
  destruct (imputed_lookup rendement Hs) as (filled & Hf & Hlen & Hkeep & Hgap & _).
  exists filled. do 3 (split; [done|]).
  intros i Hi. destruct (lookup_lt_is_Some_2 rendement i Hi) as [c Hc].
  assert (c ∈ rendement) as Hin by (by eapply list_elem_of_lookup_2).
  pose proof Hs as Hfloat. eapply Forall_forall in Hfloat; [|exact Hin].
  destruct c as [|x| |]; try done.
  - exists x, x, x. split; [by apply Hkeep|]. repeat split; [done..|lra|lra].
  - by apply (Hgap i y).
Qed.

Lemma imputation_fills_from_measured_yields_witness :
  ∃ filled,
    imputed [NaN; Num 4; NaN; NaN; Num 7; NaN] = Ok filled ∧
    length filled = length [NaN; Num 4; NaN; NaN; Num 7; NaN] ∧
    (∀ i x, [NaN; Num 4; NaN; NaN; Num 7; NaN] !! i = Some (Num x) →
            filled !! i = Some (Num x)) ∧
    ∀ i, (i < length [NaN; Num 4; NaN; NaN; Num 7; NaN])%nat →
      ∃ v lo hi, filled !! i = Some (Num v) ∧
                 Num lo ∈ [NaN; Num 4; NaN; NaN; Num 7; NaN] ∧
                 Num hi ∈ [NaN; Num 4; NaN; NaN; Num 7; NaN] ∧ lo <= v <= hi.
Proof.
  apply (imputation_fills_from_measured_yields
           [NaN; Num 4; NaN; NaN; Num 7; NaN] 4).
  - repeat constructor.
  - right. by left.
Defined.

Lemma finite_float_of s :
  Forall (λ c, ∃ v, c = Num v) s → length (finite (float_of <$> s)) = length s.
Proof.
  induction 1 as [|c s [v ->] _ IH]; [done|].
  rewrite fmap_cons.
  change (finite (float_of (Num v) :: (float_of <$> s)))
    with (v :: finite (float_of <$> s)).
  cbn [length]. f_equal. exact IH.
Qed.

Lemma finite_nothing s :
  Forall (λ c, c = NaN) s → finite (float_of <$> s) = [].
Proof.
  induction 1 as [|c s -> _ IH]; [done|].
  rewrite fmap_cons. exact IH.
Qed.

Lemma seasonal_decompose_total s period :
  Forall (λ c, ∃ v, c = Num v) s → (2 * period ≤ length s)%nat →
  ∃ r, seasonal_decompose s period = Ok r.
Proof.
  intros Hs Hlen. unfold seasonal_decompose.
  rewrite of_cell_total
    by (eapply Forall_impl; [exact Hs|]; by intros c [v ->]).
  cbn [mbind result_bind]. rewrite finite_float_of by done.
  rewrite length_fmap. rewrite decide_False by (by intros ?).
  rewrite decide_False by lia. by eexists.
Qed.

Lemma not_empty_history (history : DataFrame) c :
  (3 ≤ length (rows history))%nat → c ∈ columns history →
  ¬ (rows history = [] ∨ columns history = []).
Proof.
  intros Hlen Hc [E|E].
  - rewrite E in Hlen. simpl in Hlen. lia.
  - rewrite E in Hc. by apply elem_of_nil in Hc.
Qed.

Lemma history_of_Ok self parcelle_id :
  Sample.is_ok (where_eq "parcelle_id" (Str parcelle_id) (yield_history self)) = true →
  where_eq "parcelle_id" (Str parcelle_id) (yield_history self)
  = Ok (Examples.history_of self parcelle_id).
Proof. unfold Examples.history_of. by destruct (where_eq _ _ _). Qed.

(** X19. The analysis of a parcel returns a result whenever the parcel
    has 24 records or more, the history has a date column and a rendement
    column of floats and missing values, and one of the parcel's yields
    at least is measured. *)
Theorem long_history_is_analysed self parcelle_id history y r :
  where_eq "parcelle_id" (Str parcelle_id) (yield_history self) = Ok history →
  (24 ≤ length (rows history))%nat →
  "date" ∈ columns history →
  float_column "rendement" history →
  r ∈ rows history → at_ r "rendement" = Num y →
  ∃ d, analyze_yield_patterns self parcelle_id = Ok (Some d).
Proof.
  intros Hsel Hlen Hdate [Hrend Hfloat] Hr Hy.
  unfold analyze_yield_patterns. rewrite Hsel. cbn [mbind result_bind].
  rewrite decide_False by (apply (not_empty_history _ "date"); [lia | done]).
  rewrite decide_False by lia.
  rewrite (getitem_True "rendement") by done. cbn [mbind result_bind].
  set (s := (λ r, at_ r "rendement") <$> rows history).
  assert (floats_only s) as Hs by (unfold s; by rewrite Forall_fmap).
  assert (Num y ∈ s) as Hin.
  { unfold s. apply list_elem_of_fmap. by exists r. }
  destruct (imputed_lookup s Hs) as (filled & -> & Hfl & Hkeep & Hgap & _).
  cbn [mbind result_bind].
  rewrite (getitem_True "date") by done. cbn [mbind result_bind].
  assert (Forall (λ c, ∃ v, c = Num v) filled) as Hfilled.
  { apply Forall_lookup. intros i c Hc.
    assert (i < length s)%nat as Hi by (rewrite <- Hfl; by eapply lookup_lt_Some).
    destruct (lookup_lt_is_Some_2 s i Hi) as [c0 Hc0].
    assert (float_or_missing c0) as Hc0f by (by eapply Forall_lookup_1 in Hs).
    destruct c0 as [|x| |]; try done.
    - exists x. apply Hkeep in Hc0. congruence.
    - destruct (Hgap i y Hin Hc0) as (v & _ & _ & Hv & _). exists v. congruence. }
  destruct (seasonal_decompose_total filled 12 Hfilled) as [dec ->].
  { rewrite Hfl. unfold s. rewrite length_fmap. lia. }
  cbn [mbind result_bind].
  unfold smean. rewrite floats_total
    by (eapply Forall_impl; [exact Hfilled|]; by intros c [v ->]).
  cbn [fmap result_fmap mbind result_bind].
  assert (∃ m, Rmean (nums filled) = Num m) as [m ->].
  { destruct (nums filled) as [|x l] eqn:E; [|by eexists]. exfalso.
    destruct filled as [|c filled]; [simpl in Hfl; unfold s in Hfl;
      rewrite length_fmap in Hfl; lia|].
    apply Forall_cons in Hfilled as [[v ->] _]. discriminate. }
  destruct (sample_std (Statsmodels.resid dec)) as [sd|]; simpl; by eexists.
Qed.

Lemma long_history_is_analysed_witness :
  ∃ d, analyze_yield_patterns Sample.loaded "P001" = Ok (Some d).
Proof.
  refine (long_history_is_analysed Sample.loaded "P001"
            (Examples.history_of Sample.loaded "P001") 52
            (Sample.row_of (Examples.history_of Sample.loaded "P001") 0)
            _ _ _ _ _ _).
  - apply history_of_Ok. vm_compute. reflexivity.
  - vm_compute. lia.
  - apply (bool_decide_unpack _). vm_compute. exact I.
  - unfold float_column. apply (bool_decide_unpack _). vm_compute. exact I.
  - apply (list_elem_of_lookup_2 _ 0%nat). apply row_of_lookup. vm_compute. lia.
  - vm_compute. reflexivity.
Defined.

(** X20. The analysis of a parcel with three records or more, none of
    which has a measured yield, raises ValueError: imputation has nothing
    to fill the series from, and the decomposition refuses missing
    values. *)
Theorem unmeasured_history_raises self parcelle_id history :
  where_eq "parcelle_id" (Str parcelle_id) (yield_history self) = Ok history →
  (3 ≤ length (rows history))%nat →
  "date" ∈ columns history → "rendement" ∈ columns history →
  (∀ r, r ∈ rows history → at_ r "rendement" = NaN) →
  analyze_yield_patterns self parcelle_id
  = Raise (ValueError "This function does not handle missing values").
Proof.
  intros Hsel Hlen Hdate Hrend Hnan.
  unfold analyze_yield_patterns. rewrite Hsel. cbn [mbind result_bind].
  rewrite decide_False by (by apply (not_empty_history _ "date")).
  rewrite decide_False by lia.
  rewrite (getitem_True "rendement") by done. cbn [mbind result_bind].
  set (s := (λ r, at_ r "rendement") <$> rows history).
  assert (Forall (λ c, c = NaN) s) as Hall.
  { unfold s. rewrite Forall_fmap. apply Forall_forall. intros r Hr. by apply Hnan. }
  assert (floats_only s) as Hs
    by (eapply Forall_impl; [exact Hall|]; by intros c ->).
  destruct (imputed_lookup s Hs) as (filled & -> & _ & _ & _ & Hsame).
  rewrite Hsame.
  2:{ intros y Hy. eapply Forall_forall in Hall; [|exact Hy]. discriminate. }
  cbn [mbind result_bind].
  rewrite (getitem_True "date") by done. cbn [mbind result_bind].
  unfold seasonal_decompose. rewrite of_cell_total by done.
  cbn [mbind result_bind]. rewrite finite_nothing by done.
  rewrite length_fmap. rewrite decide_True; [done|].
  unfold s. rewrite length_fmap. simpl. lia.
Qed.

Lemma unmeasured_history_raises_witness :
  analyze_yield_patterns Examples.unmeasured "P005"
  = Raise (ValueError "This function does not handle missing values").
Proof.
  refine (unmeasured_history_raises Examples.unmeasured "P005"
            (Examples.history_of Examples.unmeasured "P005") _ _ _ _ _).
  - apply history_of_Ok. vm_compute. reflexivity.
  - vm_compute. lia.
  - apply (bool_decide_unpack _). vm_compute. exact I.
  - apply (bool_decide_unpack _). vm_compute. exact I.
  - apply Forall_forall. apply (bool_decide_unpack _). vm_compute. exact I.
Defined.

End Imputation.

(** ** The inputs of the yield-factor model *)

Section Factors.
Import Pandas AgriculturalDataManager AgriculturalAnalyzer Notions.

Lemma require_Raise c df e : require c df = Raise e → e = KeyError c.
Proof. unfold require. case_decide; [discriminate|]. by intros [= <-]. Qed.

Lemma mapM_require_Raise cs df e :
  mapM (λ c, require c df) cs = Raise e → ∃ c, c ∈ cs ∧ e = KeyError c.
Proof.
  intros H. apply mapM_Raise in H as (c & Hc & He).
  exists c. split; [done|]. by eapply require_Raise.
Qed.

Lemma where_eq_Raise c v df e : where_eq c v df = Raise e → e = KeyError c.
Proof.
  unfold where_eq. destruct (require c df) eqn:E; [discriminate|].
  intros [= <-]. by eapply require_Raise.
Qed.

Lemma getitem_Raise c df e : getitem c df = Raise e → e = KeyError c.
Proof.
  unfold getitem. destruct (require c df) eqn:E; [discriminate|].
  intros [= <-]. by eapply require_Raise.
Qed.

Lemma dropna_Raise c df e : dropna c df = Raise e → e = KeyError c.
Proof.
  unfold dropna. destruct (require c df) eqn:E; [discriminate|].
  intros [= <-]. by eapply require_Raise.
Qed.

Lemma select_Raise cs df e : select cs df = Raise e → ∃ c, c ∈ cs ∧ e = KeyError c.
Proof.
  unfold select. destruct (mapM _ cs) eqn:E; [discriminate|].
  intros [= <-]. by eapply mapM_require_Raise.
Qed.

Lemma merge_Raise h on l r e :
  merge h on l r = Raise e → ∃ c, c ∈ on ∧ e = KeyError c.
Proof.
  unfold merge. destruct (mapM (λ c, require c l) on) eqn:El.
  - destruct (mapM (λ c, require c r) on) eqn:Er; [discriminate|].
    intros [= <-]. by eapply mapM_require_Raise.
  - intros [= <-]. by eapply mapM_require_Raise.
Qed.

(** The column names the fusion of [analyze_yield_factors] looks up. *)
Let looked_up : list string :=
  ["parcelle_id"; "date"; "rendement_estime"; "rendement_final"; "rendement"].

Ltac known_key := eexists; split; [|done]; unfold looked_up; in_columns.

Ltac key_error lem E :=
  cbn [mbind result_bind]; intros [= <-]; apply lem in E as ->; known_key.

Ltac key_errors lem E :=
  let c := fresh "c" in
  let Hc := fresh "Hc" in
  cbn [mbind result_bind]; intros [= <-]; apply lem in E as (c & Hc & ->);
  repeat (apply elem_of_cons in Hc as [->|Hc]);
  [known_key..| by apply elem_of_nil in Hc].

Lemma combined_data_Raise data_manager parcelle_id e :
  combined_data data_manager parcelle_id = Raise e →
  ∃ c, c ∈ looked_up ∧ e = KeyError c.
Proof.
  unfold combined_data.
  destruct (where_eq _ _ (monitoring_data _)) as [parcelle_data|e0] eqn:E1;
    [|key_error where_eq_Raise E1].
  cbn [mbind result_bind].
  destruct (where_eq _ _ (soil_data _)) as [soil|e0] eqn:E2;
    [|key_error where_eq_Raise E2].
  cbn [mbind result_bind].
  destruct (merge Inner _ _ _) as [c1|e0] eqn:E3; [|key_errors merge_Raise E3].
  cbn [mbind result_bind].
  destruct (merge Left ["parcelle_id"] _ _) as [c2|e0] eqn:E4;
    [|key_errors merge_Raise E4].
  cbn [mbind result_bind].
  destruct (select _ _) as [yields|e0] eqn:E5; [|key_errors select_Raise E5].
  cbn [mbind result_bind].
  destruct (merge Left ["parcelle_id"; "date"] _ _) as [c3|e0] eqn:E6;
    [|key_errors merge_Raise E6].
  cbn [mbind result_bind].
  destruct (getitem "rendement_final" _) as [final|e0] eqn:E7;
    [|key_error getitem_Raise E7].
  cbn [mbind result_bind].
  destruct (getitem "rendement_estime" _) as [estime|e0] eqn:E8;
    [|key_error getitem_Raise E8].
  cbn [mbind result_bind].
  intros H. apply dropna_Raise in H as ->. known_key.
Qed.

(** The fused table, as the last three statements of the fusion leave
    it. *)
Lemma combined_data_Ok data_manager parcelle_id combined :
  combined_data data_manager parcelle_id = Ok combined →
  ∃ merged final estime,
    getitem "rendement_final" merged = Ok final ∧
    getitem "rendement_estime" merged = Ok estime ∧
    columns combined = columns (setitem "rendement" (fillna final estime) merged) ∧
    rows combined
    = filter (λ r, notnull (at_ r "rendement"))
             (rows (setitem "rendement" (fillna final estime) merged)).
Proof.
  unfold combined_data. intros H. do 8 inv_bind H.
  unfold dropna in H. apply bind_Ok in H as (? & _ & [= <-]).
  eexists _, _, _. by repeat split.
Qed.

Lemma combined_data_has_rendement data_manager parcelle_id combined :
  combined_data data_manager parcelle_id = Ok combined →
  "rendement" ∈ columns combined ∧ "rendement_final" ∈ columns combined ∧
  "rendement_estime" ∈ columns combined.
Proof.
  intros H.
  apply combined_data_Ok in H as (merged & final & estime & Hf & He & -> & _).
  apply getitem_Ok in Hf as [Hf _]. apply getitem_Ok in He as [He _].
  rewrite !elem_of_setitem_columns. tauto.
Qed.

(** X21. The check that the rendement column is in the fused table can
    never fail: [analyze_yield_factors] assigns the column two statements
    earlier, and no other statement raises a KeyError with that
    message. *)
Theorem missing_rendement_is_never_reported data_manager parcelle_id :
  features_and_target data_manager parcelle_id
  ≠ Raise (KeyError "La colonne 'rendement' est manquante dans combined_data.").
Proof.
  unfold features_and_target.
  destruct (combined_data data_manager parcelle_id) as [combined|e] eqn:E;
    cbn [mbind result_bind].
  - destruct (combined_data_has_rendement _ _ _ E) as (Hr & _ & _).
    rewrite decide_False by (by intros ?).
    rewrite (getitem_True "rendement") by done. cbn [mbind result_bind].
    case_decide; discriminate.
  - intros [= ->]. apply combined_data_Raise in E as (c & Hc & Heq).
    injection Heq as <-.
    repeat (apply elem_of_cons in Hc as [Hc|Hc]; [discriminate Hc|]).
    by apply elem_of_nil in Hc.
Qed.

Lemma features_and_target_Ok data_manager parcelle_id X y :
  features_and_target data_manager parcelle_id = Ok (X, y) →
  ∃ combined,
    combined_data data_manager parcelle_id = Ok combined ∧
    X = drop_columns ["rendement"; "parcelle_id"; "date"] combined ∧
    y = (λ r, at_ r "rendement") <$> rows combined ∧
    ¬ is_empty X.
Proof.
  unfold features_and_target. intros H.
  apply bind_Ok in H as (combined & Hc & H). exists combined.
  case_decide as Hr; [discriminate|].
  apply bind_Ok in H as (y' & Hy & H). apply getitem_Ok in Hy as [_ ->].
  case_decide as Hempty; [discriminate|]. injection H as <- <-.
  repeat split; [done|]. tauto.
Qed.

(** X22. When the validity check passes, the features have at least one
    row and as many rows as the target has values; they hold none of
    rendement, parcelle_id and date, but they do hold rendement_final and
    rendement_estime, and the target of every row, never missing, is
    read off these two features: the final yield when there is one, the
    estimate otherwise. *)
Theorem features_contain_the_target data_manager parcelle_id X y :
  features_and_target data_manager parcelle_id = Ok (X, y) →
  rows X ≠ [] ∧ length y = length (rows X) ∧
  ("rendement" ∉ columns X) ∧ ("parcelle_id" ∉ columns X) ∧
  ("date" ∉ columns X) ∧
  "rendement_final" ∈ columns X ∧ "rendement_estime" ∈ columns X ∧
  ∀ i row, rows X !! i = Some row →
    ∃ t, y !! i = Some t ∧ notnull t ∧
         t = if isnull (at_ row "rendement_final")
             then at_ row "rendement_estime" else at_ row "rendement_final".
Proof.
  intros H.
  apply features_and_target_Ok in H as (combined & Hc & -> & -> & Hempty).
  destruct (combined_data_has_rendement _ _ _ Hc) as (_ & Hfinal & Hestime).
  set (kept := filter (λ c, c ∉ ["rendement"; "parcelle_id"; "date"])
                      (columns combined)).
  assert (∀ c, c ∈ kept ↔ (c ∉ ["rendement"; "parcelle_id"; "date"])
                          ∧ c ∈ columns combined) as Hkept
    by (intros c; unfold kept; by rewrite list_elem_of_filter).
  assert ("rendement_final" ∈ kept) as Hkf.
  { apply Hkept. split; [|done]. rewrite !not_elem_of_cons.
    repeat split; [done..|apply not_elem_of_nil]. }
  assert ("rendement_estime" ∈ kept) as Hke.
  { apply Hkept. split; [|done]. rewrite !not_elem_of_cons.
    repeat split; [done..|apply not_elem_of_nil]. }
  unfold drop_columns, is_empty in *. cbv zeta in *. cbn [columns rows] in *.
  fold kept in Hempty |- *.
  split; [|split; [|split; [|split; [|split; [|split; [|split]]]]]].
  - intros Hnil. apply Hempty. by left.
  - by rewrite !length_fmap.
  - intros [Hno _]%Hkept. apply Hno. by left.
  - intros [Hno _]%Hkept. apply Hno. by right; left.
  - intros [Hno _]%Hkept. apply Hno. by do 2 right; left.
  - done.
  - done.
  - intros i row Hrow.
    apply list_lookup_fmap_Some in Hrow as (r & Hrow & Hr). subst row.
    rewrite list_lookup_fmap, Hr. eexists. split; [done|].
    destruct (combined_data_resolved _ _ _ r Hc) as [Hres Hnn];
      [by eapply list_elem_of_lookup_2|].
    split; [done|]. rewrite !(at_list_to_map (at_ r)) by done. exact Hres.
Qed.

Lemma season_inputs :
  features_and_target Examples.season "P010"
  = Ok (Examples.inputs.1, Examples.inputs.2).
Proof.
  assert (Sample.is_ok (features_and_target Examples.season "P010") = true)
    as Hok by (vm_compute; reflexivity).
  unfold Examples.inputs.
  by destruct (features_and_target Examples.season "P010") as [[X y]|].
Qed.

Lemma features_contain_the_target_witness :
  rows Examples.inputs.1 ≠ [] ∧
  length Examples.inputs.2 = length (rows Examples.inputs.1) ∧
  ("rendement" ∉ columns Examples.inputs.1) ∧
  ("parcelle_id" ∉ columns Examples.inputs.1) ∧
  ("date" ∉ columns Examples.inputs.1) ∧
  "rendement_final" ∈ columns Examples.inputs.1 ∧
  "rendement_estime" ∈ columns Examples.inputs.1 ∧
  ∀ i row, rows Examples.inputs.1 !! i = Some row →
    ∃ t, Examples.inputs.2 !! i = Some t ∧ notnull t ∧
         t = if isnull (at_ row "rendement_final")
             then at_ row "rendement_estime" else at_ row "rendement_final".
Proof.
  exact (features_contain_the_target Examples.season "P010"
           Examples.inputs.1 Examples.inputs.2 season_inputs).
Defined.

(** X23. When no row of the fused table has a yield, final or estimated,
    [analyze_yield_factors] raises ValueError: the data for the analysis
    are empty. *)
Theorem factors_need_a_yield data_manager parcelle_id combined :
  combined_data data_manager parcelle_id = Ok combined →
  rows combined = [] →
  features_and_target data_manager parcelle_id
  = Raise (ValueError "Les données pour l'analyse des facteurs sont vides.").
Proof.
  intros Hc Hrows. unfold features_and_target. rewrite Hc.
  cbn [mbind result_bind].
  destruct (combined_data_has_rendement _ _ _ Hc) as (Hr & _ & _).
  rewrite decide_False by (by intros ?).
  rewrite (getitem_True "rendement") by done. cbn [mbind result_bind].
  rewrite decide_True; [done|]. right. by rewrite Hrows.
Qed.

Lemma factors_need_a_yield_witness :
  features_and_target Sample.loaded "P001"
  = Raise (ValueError "Les données pour l'analyse des facteurs sont vides.").
Proof.
  destruct combined_data_needs_same_day as (combined & Hc & Hrows).
  exact (factors_need_a_yield Sample.loaded "P001" combined Hc Hrows).
Defined.

End Factors.

(** ** The map layers *)

Section Map.
Import Pandas AgriculturalDataManager AgriculturalMap Notions.
Local Open Scope R_scope.

(** One turn of the loop of [validate_columns]. *)
Let validated_for (dataset : DataFrame) (column : string) : DataFrame :=
  if decide (column ∈ columns dataset) then dataset
  else setitem_scalar column (Num 0) dataset.

Lemma validate_columns_cons column required dataset :
  validate_columns (column :: required) dataset
  = validate_columns required (validated_for dataset column).
Proof. done. Qed.

Lemma validated_for_columns dataset column c :
  c ∈ columns (validated_for dataset column) ↔ c ∈ columns dataset ∨ c = column.
Proof.
  unfold validated_for. case_decide as Hc.
  - split; [by left|]. by intros [?| ->].
  - unfold setitem_scalar. apply elem_of_setitem_columns.
Qed.

Lemma validated_for_rows dataset column i r :
  rows dataset !! i = Some r →
  ∃ r', rows (validated_for dataset column) !! i = Some r' ∧
        (∀ c, c ∈ columns dataset → r' !! c = r !! c) ∧
        (column ∉ columns dataset → at_ r' column = Num 0).
Proof.
  intros Hr. unfold validated_for. case_decide as Hc.
  - exists r. by repeat split.
  - unfold setitem_scalar. rewrite setitem_rows_lookup, Hr. simpl.
    eexists. split; [done|]. split.
    + intros c Hin. rewrite lookup_insert_ne; [done|]. by intros ->.
    + intros _. rewrite at_insert, lookup_replicate_2; [done|].
      by eapply lookup_lt_Some.
Qed.

Lemma length_validated_for dataset column :
  length (rows (validated_for dataset column)) = length (rows dataset).
Proof.
  unfold validated_for. case_decide; [done|]. apply length_setitem.
Qed.

Lemma validate_columns_spec required dataset :
  (∀ c, c ∈ columns (validate_columns required dataset)
        ↔ c ∈ columns dataset ∨ c ∈ required) ∧
  length (rows (validate_columns required dataset)) = length (rows dataset) ∧
  ∀ i r, rows dataset !! i = Some r →
    ∃ r', rows (validate_columns required dataset) !! i = Some r' ∧
          (∀ c, c ∈ columns dataset → r' !! c = r !! c) ∧
          (∀ c, c ∈ required → c ∉ columns dataset → at_ r' c = Num 0).
Proof.
  revert dataset. induction required as [|column required IH]; intros dataset.
  - split; [|split; [done|]].
    + intros c. rewrite elem_of_nil. simpl. tauto.
    + intros i r Hr. exists r. split; [done|]. split; [done|].
      by intros c ?%elem_of_nil.
  - rewrite validate_columns_cons.
    destruct (IH (validated_for dataset column)) as (Hcols & Hlen & Hrows).
    split; [|split].
    + intros c. rewrite Hcols, validated_for_columns, elem_of_cons. tauto.
    + by rewrite Hlen, length_validated_for.
    + intros i r Hr.
      destruct (validated_for_rows dataset column i r Hr) as (r1 & Hr1 & Hkeep1 & Hnew1).
      destruct (Hrows i r1 Hr1) as (r' & Hr' & Hkeep & Hnew).
      exists r'. split; [done|]. split.
      * intros c Hc. rewrite Hkeep; [by apply Hkeep1|].
        apply validated_for_columns. by left.
      * intros c Hc Hno. destruct (decide (c = column)) as [->|Hne].
        -- unfold at_. rewrite Hkeep; [by apply Hnew1|].
           apply validated_for_columns. by right.
        -- apply Hnew.
           ++ apply elem_of_cons in Hc as [?|?]; done.
           ++ rewrite validated_for_columns. by intros [?|?].
Qed.

Lemma validate_columns_present required dataset :
  (∀ c, c ∈ required → c ∈ columns dataset) →
  validate_columns required dataset = dataset.
Proof.
  revert dataset. induction required as [|column required IH]; intros dataset H;
    [done|].
  rewrite validate_columns_cons. unfold validated_for.
  rewrite decide_True by (apply H; by left).
  apply IH. intros c Hc. apply H. by right.
Qed.

(** X24. After [validate_columns] the table has its own columns and the
    required ones, and no other; it has the same rows, every cell of a
    column it had is unchanged, and every cell of a column that was added
    is 0.0. Validating the result again changes nothing. *)
Theorem validate_columns_adds_defaults required dataset :
  let validated := validate_columns required dataset in
  (∀ c, c ∈ columns validated ↔ c ∈ columns dataset ∨ c ∈ required) ∧
  length (rows validated) = length (rows dataset) ∧
  (∀ i r, rows dataset !! i = Some r →
     ∃ r', rows validated !! i = Some r' ∧
           (∀ c, c ∈ columns dataset → r' !! c = r !! c) ∧
           (∀ c, c ∈ required → c ∉ columns dataset → at_ r' c = Num 0)) ∧
  validate_columns required validated = validated.
Proof.
  intros validated.
  destruct (validate_columns_spec required dataset) as (Hcols & Hlen & Hrows).
  do 3 (split; [done|]).
  apply validate_columns_present. intros c Hc. apply Hcols. by right.
Qed.

Lemma clamp_total a :
  float_or_missing a →
  ∃ x, clamp a = Ok (Num x) ∧ 0 <= x <= 12 ∧
       Num x = match a with Num v => Num (Rmax 0 (Rmin v 12)) | _ => Num 0 end.
Proof.
  destruct a as [|v| |]; try done; intros _.
  - exists (Rmax 0 (Rmin v 12)). split; [done|]. split; [|done]. split.
    + apply Rmax_l.
    + apply Rmax_lub; [lra | apply Rmin_r].
  - exists 0. split; [done|]. split; [lra | done].
Qed.

(** X25. On a yield history whose yields are floats or missing, the
    yield layer raises nothing before it draws, and it rewrites the
    manager's own table: every yield becomes a float between 0 and 12,
    a yield below 0 becoming 0, one above 12 becoming 12 and a missing one
    0; the records, their order and their other columns are kept, and the
    monitoring table is not touched. *)
Theorem yield_layer_clamps_the_history self :
  Forall (λ r, float_or_missing (at_ r "rendement")) (rows (yield_history self)) →
  let after := (add_yield_history_layer self).1 in
  (add_yield_history_layer self).2 = Ok () ∧
  monitoring_data after = monitoring_data self ∧
  length (rows (yield_history after)) = length (rows (yield_history self)) ∧
  ∀ i r, rows (yield_history self) !! i = Some r →
    ∃ r' x,
      rows (yield_history after) !! i = Some r' ∧
      at_ r' "rendement" = Num x ∧ 0 <= x <= 12 ∧
      ("rendement" ∈ columns (yield_history self) →
       Num x = match at_ r "rendement" with
               | Num v => Num (Rmax 0 (Rmin v 12))
               | _ => Num 0
               end) ∧
      ∀ c, c ∈ columns (yield_history self) → c ≠ "rendement" → r' !! c = r !! c.
Proof.
  intros Hfloat after. subst after. unfold add_yield_history_layer.
  set (validated := validate_columns _ (yield_history self)).
  destruct (validate_columns_spec ["latitude"; "longitude"; "rendement"]
              (yield_history self)) as (Hcols & Hlen & Hrows).
  fold validated in Hcols, Hlen, Hrows.
  assert ("rendement" ∈ columns validated) as Hin
    by (apply Hcols; right; in_columns).
  rewrite (getitem_True "rendement") by done. cbn [mbind result_bind].
  assert (∀ i r, rows (yield_history self) !! i = Some r →
            ∃ r1, rows validated !! i = Some r1 ∧
                  float_or_missing (at_ r1 "rendement") ∧
                  ("rendement" ∈ columns (yield_history self) →
                   at_ r1 "rendement" = at_ r "rendement") ∧
                  ∀ c, c ∈ columns (yield_history self) → r1 !! c = r !! c) as Hv.
  { intros i r Hr. destruct (Hrows i r Hr) as (r1 & Hr1 & Hkeep & Hnew).
    exists r1. split; [done|].
    assert ("rendement" ∈ columns (yield_history self) →
            at_ r1 "rendement" = at_ r "rendement") as Hsame.
    { intros Hc. unfold at_. by rewrite Hkeep. }
    split; [|by split].
    destruct (decide ("rendement" ∈ columns (yield_history self))) as [Hc|Hc].
    - rewrite Hsame by done.
      eapply Forall_forall in Hfloat; [exact Hfloat|].
      by eapply list_elem_of_lookup_2.
    - rewrite Hnew; [done | in_columns | done]. }
  destruct (mapM_total_with clamp (λ c, ∃ x, c = Num x ∧ 0 <= x <= 12)
              ((λ r, at_ r "rendement") <$> rows validated))
    as (clamped & Hclamped & Hcl & Hrange).
  { rewrite Forall_fmap. apply Forall_lookup. intros i r1 Hr1.
    assert (i < length (rows (yield_history self)))%nat as Hi
      by (rewrite <- Hlen; by eapply lookup_lt_Some).
    destruct (lookup_lt_is_Some_2 _ i Hi) as [r Hr].
    destruct (Hv i r Hr) as (r1' & Hr1' & Hf & _).
    assert (r1' = r1) as -> by congruence.
    destruct (clamp_total _ Hf) as (x & Hx & Hx12 & _).
    simpl. exists (Num x). split; [done|]. by exists x. }
  rewrite Hclamped. cbn [fst snd monitoring_data yield_history].
  split; [done|]. split; [done|]. split; [by rewrite length_setitem|].
  intros i r Hr. destruct (Hv i r Hr) as (r1 & Hr1 & Hf & Hsame & Hkeep).
  assert (((λ r, at_ r "rendement") <$> rows validated) !! i
          = Some (at_ r1 "rendement")) as Hcell
    by (by rewrite list_lookup_fmap, Hr1).
  destruct (mapM_Ok_lookup _ _ _ _ _ Hclamped Hcell) as (c & Hc & Hclamp).
  destruct (clamp_total _ Hf) as (x & Hx & Hx12 & Hval).
  assert (c = Num x) as -> by congruence.
  exists (<["rendement" := Num x]> r1), x.
  split; [by rewrite setitem_rows_lookup, Hr1, Hc|].
  split; [apply at_insert|]. split; [done|]. split.
  - intros Hpresent. by rewrite <- Hsame.
  - intros c0 Hc0 Hne. rewrite lookup_insert_ne by done. by apply Hkeep.
Qed.

Lemma yield_layer_clamps_the_history_witness :
  let after := (add_yield_history_layer Sample.loaded).1 in
  (add_yield_history_layer Sample.loaded).2 = Ok () ∧
  monitoring_data after = monitoring_data Sample.loaded ∧
  length (rows (yield_history after)) = length (rows (yield_history Sample.loaded)) ∧
  ∀ i r, rows (yield_history Sample.loaded) !! i = Some r →
    ∃ r' x,
      rows (yield_history after) !! i = Some r' ∧
      at_ r' "rendement" = Num x ∧ 0 <= x <= 12 ∧
      ("rendement" ∈ columns (yield_history Sample.loaded) →
       Num x = match at_ r "rendement" with
               | Num v => Num (Rmax 0 (Rmin v 12))
               | _ => Num 0
               end) ∧
      ∀ c, c ∈ columns (yield_history Sample.loaded) → c ≠ "rendement" →
           r' !! c = r !! c.
Proof.
  apply (yield_layer_clamps_the_history Sample.loaded).
  apply (bool_decide_unpack _). vm_compute. exact I.
Defined.

(** X26. The heat-map data are always built, whatever the monitoring
    table: each entry is a triple without missing value; when the
    monitoring table has no risk_score column, the weight of every entry
    is 0.0. *)
Theorem heat_map_data self :
  ∃ heat_data,
    (add_risk_heatmap self).2 = Ok heat_data ∧
    Forall (λ p, length p = 3%nat ∧ Forall (λ a, notnull a) p) heat_data ∧
    ("risk_score" ∉ columns (monitoring_data self) →
     Forall (λ p, p !! 2%nat = Some (Num 0)) heat_data).
Proof.
  unfold add_risk_heatmap. cbn [snd].
  set (validated := validate_columns _ (monitoring_data self)).
  destruct (validate_columns_spec ["latitude"; "longitude"; "risk_score"]
              (monitoring_data self)) as (Hcols & Hlen & Hrows).
  fold validated in Hcols, Hlen, Hrows.
  rewrite select_total
    by (intros c Hc; apply Hcols; by right).
  cbn [mbind result_bind]. eexists. split; [done|].
  unfold dropna_any. cbn [columns rows]. split.
  - rewrite Forall_fmap. apply Forall_forall.
    intros row [Hnn _]%list_elem_of_filter. simpl. split; [done|].
    apply Forall_cons in Hnn as [H1 Hnn]. apply Forall_cons in Hnn as [H2 Hnn].
    apply Forall_cons in Hnn as [H3 _]. by repeat constructor.
  - intros Hno. rewrite Forall_fmap. apply Forall_forall.
    intros row [_ Hrow]%list_elem_of_filter. simpl. f_equal.
    apply list_elem_of_fmap in Hrow as (r1 & -> & Hr1).
    rewrite at_selected by in_columns.
    apply list_elem_of_lookup in Hr1 as [i Hi].
    assert (i < length (rows (monitoring_data self)))%nat as Hlt
      by (rewrite <- Hlen; by eapply lookup_lt_Some).
    destruct (lookup_lt_is_Some_2 _ i Hlt) as [r Hr].
    destruct (Hrows i r Hr) as (r1' & Hr1' & _ & Hnew).
    assert (r1' = r1) as -> by congruence.
    apply Hnew; [in_columns | done].
Qed.

End Map.
